(** * The pay slip splitter (pay-slip-splitter.sh)

    A shallow embedding of the shell script that cuts one PDF holding the
    pay slips of all employees into one PDF per employee, and the
    properties of the written description that it has or has not.

    Text is a [string] of bytes, as the shell sees it: an accented letter
    is the two bytes of its UTF-8 encoding.  A PDF is the list of its
    pages, a page being the text [pdftotext] prints for it. *)

From Stdlib Require Import Ascii String.
From stdpp Require Import gmap strings list fin_maps sorting.

(** ** Text tools: lines, [cut], command substitution, [grep -qi] *)

Module Text.

Definition LF : ascii := ascii_of_nat 10.
Definition SP : ascii := ascii_of_nat 32.

Definition is_LF (c : ascii) : bool := Ascii.eqb c LF.
Definition is_SP (c : ascii) : bool := Ascii.eqb c SP.

(** The text before the first newline. *)
Fixpoint head_line (s : string) : string :=
  match s with
  | EmptyString => EmptyString
  | String c r => if is_LF c then EmptyString else String c (head_line r)
  end.

(** The lines of a text, as [cut] and [grep] read them: a line ends at a
    newline, and what follows the last newline is a line when it is not
    empty. *)
Fixpoint lines (s : string) : list string :=
  match s with
  | EmptyString => []
  | String c r =>
      if is_LF c then EmptyString :: lines r
      else String c (head_line r) :: tail (lines r)
  end.

(** What a line-by-line filter prints: every line followed by a newline. *)
Fixpoint unlines (ls : list string) : string :=
  match ls with
  | [] => EmptyString
  | l :: ls' => l +:+ String LF (unlines ls')
  end.

(** [cut -d ' ' -f 1] on one line: the first field, which is the whole
    line when the line has no space. *)
Fixpoint cut_f1 (line : string) : string :=
  match line with
  | EmptyString => EmptyString
  | String c r => if is_SP c then EmptyString else String c (cut_f1 r)
  end.

(** [cut -d ' ' -f 1] on its standard input. *)
Definition cut_d_sp_f1 (stdin : string) : string :=
  unlines (map cut_f1 (lines stdin)).

(** [<<< "$w"]: the word followed by a newline. *)
Definition here_string (w : string) : string := w +:+ String LF EmptyString.

(** [$(...)]: the output of the command without its trailing newlines. *)
Fixpoint command_subst (out : string) : string :=
  match out with
  | EmptyString => EmptyString
  | String c r =>
      match command_subst r with
      | EmptyString => if is_LF c then EmptyString else String c EmptyString
      | r' => String c r'
      end
  end.

(** Case folding of [grep -i] on bytes: the letters A to Z. *)
Definition lower_ascii (c : ascii) : ascii :=
  let n := nat_of_ascii c in
  if (65 <=? n)%nat && (n <=? 90)%nat then ascii_of_nat (n + 32) else c.

Fixpoint lower (s : string) : string :=
  match s with
  | EmptyString => EmptyString
  | String c r => String (lower_ascii c) (lower r)
  end.

Fixpoint starts_with (p s : string) : bool :=
  match p, s with
  | EmptyString, _ => true
  | String _ _, EmptyString => false
  | String a p', String b s' => Ascii.eqb a b && starts_with p' s'
  end.

(** [p] occurs in [s]: it is a prefix of [s] or occurs further on. *)
Fixpoint occurs_in (p s : string) : bool :=
  starts_with p s ||
  match s with
  | EmptyString => false
  | String _ r => occurs_in p r
  end.

(** [grep -qi "$name"] on a text: some line holds the name, letter case
    apart.  This is [grep] for a name that, read as a regular
    expression, stands for itself: a name made of the letters A-Z and
    a-z, as the seven names of the script are; a name such as [\S] is a
    pattern and is not covered.  Case is folded on the bytes A-Z, which
    is [grep -i] in the C locale.  In a UTF-8 locale (with the usual
    pairing of i and I) [grep -i] folds some letters outside ASCII onto
    ASCII ones as well (the long s onto s, the dotless i onto i), so
    there [grep_qi] is [grep -qi] on text of ASCII characters, and on
    any text [grep -qi] finds what [grep_qi] finds.  The statements
    below that depend on how case is folded carry these conditions
    ([letters_only], [ascii_only]). *)
Definition grep_qi (name text : string) : bool :=
  existsb (fun line => occurs_in (lower name) (lower line)) (lines text).

Definition is_letter (c : ascii) : bool :=
  let n := nat_of_ascii c in
  ((65 <=? n)%nat && (n <=? 90)%nat) || ((97 <=? n)%nat && (n <=? 122)%nat).

Fixpoint letters_only (s : string) : bool :=
  match s with
  | EmptyString => true
  | String c r => is_letter c && letters_only r
  end.

(** Text of ASCII characters: every byte is below 128. *)
Fixpoint ascii_only (s : string) : bool :=
  match s with
  | EmptyString => true
  | String c r => (nat_of_ascii c <? 128)%nat && ascii_only r
  end.

Fixpoint no_LF (s : string) : bool :=
  match s with
  | EmptyString => true
  | String c r => negb (is_LF c) && no_LF r
  end.

Fixpoint no_SP (s : string) : bool :=
  match s with
  | EmptyString => true
  | String c r => negb (is_SP c) && no_SP r
  end.

Definition is_digit (c : ascii) : bool :=
  let n := nat_of_ascii c in (48 <=? n)%nat && (n <=? 57)%nat.

Definition is_dash (c : ascii) : bool := Ascii.eqb c (ascii_of_nat 45).

(** The whole of [s] matches [^\d{4}(-\d{2})?$]: a year of four digits,
    then nothing or a dash and a month of two digits. *)
Definition is_period (s : string) : bool :=
  match s with
  | String y1 (String y2 (String y3 (String y4 r))) =>
      is_digit y1 && is_digit y2 && is_digit y3 && is_digit y4 &&
      match r with
      | EmptyString => true
      | String d (String m1 (String m2 EmptyString)) =>
          is_dash d && is_digit m1 && is_digit m2
      | _ => false
      end
  | _ => false
  end.

End Text.

Import Text.

(** ** Files and the state of a run *)

(** A PDF: its pages in order, each page being its text. *)
Abbreviation pdf := (list string).

(** What [pdftotext f -] prints: the text of the pages, one after the other. *)
Definition text_of (doc : pdf) : string := foldr String.append EmptyString doc.

(** Page [p] of a document, pages being counted from 1. *)
Definition page_at (doc : pdf) (p : nat) : option string :=
  match p with
  | O => None
  | S k => doc !! k
  end.

Definition page_text (doc : pdf) (p : nat) : string :=
  default EmptyString (page_at doc p).

Definition is_slash (c : ascii) : bool := Ascii.eqb c (ascii_of_nat 47).

Fixpoint has_slash (p : string) : bool :=
  match p with
  | EmptyString => false
  | String c r => is_slash c || has_slash r
  end.

Fixpoint before_last_slash (p : string) : string :=
  match p with
  | EmptyString => EmptyString
  | String c r => if has_slash r then String c (before_last_slash r) else EmptyString
  end.

(** The directory a path names a file in; the working directory for a
    bare file name. *)
Definition dirname (p : string) : string :=
  if has_slash p then before_last_slash p else ".".

(** The part of the machine the script acts on: the directories that
    exist, the PDF files by path, and the trace of the per-employee
    files written so far, each with the source pages it was made of. *)
Record State := mkState {
  dirs : gset string;
  files : gmap string pdf;
  written : list (string * list nat)
}.

(** A file can be created in the working directory and in any
    directory that exists; no tool of the script creates a directory. *)
Definition dir_exists (ds : gset string) (d : string) : bool :=
  bool_decide (d = "." ∨ d ∈ ds).

(** ** Commands: a state monad; a command returns its exit status *)

Definition sh (A : Type) : Type := State -> A * State.

Definition ret {A : Type} (a : A) : sh A := fun st => (a, st).

Definition bind {A B : Type} (c : sh A) (k : A -> sh B) : sh B :=
  fun st => let (a, st') := c st in k a st'.

Notation "'let!' x ':=' c 'in' k" := (bind c (fun x => k))
  (at level 10, x binder, c at level 100, k at level 200).

Fixpoint for_each {A : Type} (body : A -> sh unit) (l : list A) : sh unit :=
  match l with
  | [] => ret tt
  | x :: l' => let! _ := body x in for_each body l'
  end.

Definition temp_file : string := "temp.pdf".

Section Commands.

(** The document [pdftk] finds at the path given as argument, [None]
    when there is none it can read.  It is kept apart from the files
    the script writes: the input is a file other than the scratch file
    [temp.pdf] and the per-employee files, so that the script only
    reads it and finds the same document at every call.  An argument
    that names the scratch file itself is outside this model (see
    [writes_input] below): the script would extract onto its own input
    and remove it at the end. *)
Variable input : option pdf.

(** [pdftk "$input_file" dump_data | grep NumberOfPages | awk '{print $2}']:
    the number of pages, or nothing. *)
Definition number_of_pages : option nat := length <$> input.

(** [seq 1 $(...)]: with nothing substituted this is [seq 1], which
    prints 1. *)
Definition seq_1 (last : option nat) : list nat :=
  match last with
  | Some n => seq 1 n
  | None => [1]
  end.

(** The document [pdftk "$input_file" cat p1 p2 ...] builds; it fails on
    an unreadable input and on a page the input has not. *)
Definition cat_pages (ps : list nat) : option pdf :=
  match input with
  | Some doc => mapM (page_at doc) ps
  | None => None
  end.

(** [pdftk "$input_file" cat ps output out], for an output that is not
    the input file. *)
Definition pdftk_cat (ps : list nat) (out : string) : sh nat :=
  fun st =>
    match cat_pages ps with
    | Some doc =>
        if dir_exists (dirs st) (dirname out)
        then (0, mkState (dirs st) (<[out := doc]> (files st)) (written st))
        else (1, st)
    | None => (1, st)
    end.

(** The same for a per-employee file, which the trace records. *)
Definition pdftk_cat_output (ps : list nat) (out : string) : sh nat :=
  fun st =>
    let (status, st') := pdftk_cat ps out st in
    match status with
    | O => (status, mkState (dirs st') (files st') (written st' ++ [(out, ps)]))
    | S _ => (status, st')
    end.

(** [pdftotext f -]: prints nothing when [f] is not there. *)
Definition pdftotext (f : string) : sh string :=
  fun st =>
    match files st !! f with
    | Some doc => (text_of doc, st)
    | None => (EmptyString, st)
    end.

(** [rm f] *)
Definition rm (f : string) : sh nat :=
  fun st =>
    match files st !! f with
    | Some _ => (0, mkState (dirs st) (delete f (files st)) (written st))
    | None => (1, st)
    end.

(** ** The script *)

Definition full_names : list string :=
  ["Bernier Antoine"; "Feltin Clément"; "Madura Quentin"; "Andres Alice";
   "Legeron Camille"; "Bellec Maxime"; "Auge Marc-Antoine"].

Definition names : list string :=
  ["Bernier"; "Feltin"; "Madura"; "Andres"; "Legeron"; "Bellec"; "Auge"].

(** [date=$(cut -d ' ' -f 1 <<< "$input_file")] *)
Definition date_of (input_file : string) : string :=
  command_subst (cut_d_sp_f1 (here_string input_file)).

(** ["output/${date} ${full_name}.pdf"] *)
Definition output_name (date full_name : string) : string :=
  "output/" +:+ date +:+ " " +:+ full_name +:+ ".pdf".

(** The body of the loop over the pages: the page is copied to the
    scratch file, and its number joins [pages] when the name is found
    in the text of the scratch file. *)
Definition scan_page (name : string) (page : nat) (pages : list nat)
  : sh (list nat) :=
  let! _ := pdftk_cat [page] temp_file in
  let! text := pdftotext temp_file in
  if grep_qi name text then ret (pages ++ [page]) else ret pages.

Fixpoint for_pages (name : string) (todo : list nat) (pages : list nat)
  : sh (list nat) :=
  match todo with
  | [] => ret pages
  | page :: todo' =>
      let! pages' := scan_page name page pages in
      for_pages name todo' pages'
  end.

(** The body of the loop over the names. *)
Definition split_employee (date : string) (i : nat) : sh unit :=
  let name := nth i names EmptyString in
  let full_name := nth i full_names EmptyString in
  let! pages := for_pages name (seq_1 number_of_pages) [] in
  if (0 <? length pages)%nat
  then let! _ := pdftk_cat_output pages (output_name date full_name) in ret tt
  else ret tt.

(** The whole script, on its first argument; the result is its exit
    status, which is that of the last command unless the script stops
    at [exit 1] for want of an argument.  No command failure stops the
    script, which does not set [-e].  The [echo] lines only print and
    are left out. *)
Definition script (arg1 : string) : sh nat :=
  if String.eqb arg1 EmptyString   (* [ -z "$1" ] *)
  then ret 1                       (* exit 1 *)
  else
    let input_file := arg1 in
    let date := date_of input_file in
    let! _ := for_each (split_employee date) (seq 0 (length names)) in
    rm temp_file.

End Commands.

(** ** A run *)

(** What a run starts from: the input document, what a remote list of
    employees would give if it were fetched ([None]: the fetch fails),
    and the directories and files in place. *)
Record World := mkWorld {
  input_doc : option pdf;
  remote_employees : option (list (string * string));
  dirs0 : gset string;
  files0 : gmap string pdf
}.

(** The state a run starts in: nothing written yet. *)
Definition init (w : World) : State := mkState (dirs0 w) (files0 w) [].

Definition run_script (arg1 : string) (w : World) : nat * State :=
  script (input_doc w) arg1 (init w).

Definition exit_status (arg1 : string) (w : World) : nat := fst (run_script arg1 w).
Definition final (arg1 : string) (w : World) : State := snd (run_script arg1 w).

(** [s] ends with [suffix]. *)
Fixpoint ends_with (suffix s : string) : bool :=
  String.eqb suffix s ||
  match s with
  | EmptyString => false
  | String _ r => ends_with suffix r
  end.

(** The argument may name the scratch file of the script: it ends with
    [temp.pdf], as [temp.pdf] itself, [./temp.pdf] and [A=temp.pdf]
    (a handle of [pdftk]) do.  A run on such an argument extracts onto
    its own input and removes it at the end. *)
Definition input_is_scratch (arg1 : string) : bool := ends_with temp_file arg1.

(** The argument goes through a parent directory.  Only so can a
    per-employee file, which is written under [output/], be the input
    itself: in a working directory [/w] with its directory [output],
    the argument [../../2025-09 Bernier Antoine.pdf] names the file
    [/2025-09 Bernier Antoine.pdf], and so does
    [output/../../2025-09 Bernier Antoine.pdf], the path the script
    writes the file of the first employee at. *)
Definition input_through_parent (arg1 : string) : bool := occurs_in ".." arg1.

(** A run on this argument may write the file it reads.  A [World]
    keeps the input apart from the files written, so what is proved of
    the pages a run finds, and of a second run, is for the other
    arguments.  Links between files are not part of the model. *)
Definition writes_input (arg1 : string) : bool :=
  input_is_scratch arg1 || input_through_parent arg1.

(** ** What the loops compute *)

(** The pages of a document on which [grep -qi] finds a name, in the
    order of the document. *)
Definition matched (doc : pdf) (name : string) : list nat :=
  filter (λ p, grep_qi name (page_text doc p) = true) (seq 1 (length doc)).

(** The state after a loop over the pages [todo] of a readable document:
    the scratch file holds the last of them. *)
Definition after_pages (doc : pdf) (todo : list nat) (st : State) : State :=
  match last todo with
  | Some p =>
      mkState (dirs st) (<[temp_file := [page_text doc p]]> (files st)) (written st)
  | None => st
  end.

(** The per-employee file of employee [i], if the run writes it: it does
    when some page matched and the directory of the file exists. *)
Definition output_of (doc : pdf) (ds : gset string) (date : string) (i : nat)
  : list (string * list nat) :=
  let pages := matched doc (nth i names "") in
  let out := output_name date (nth i full_names "") in
  if (0 <? length pages) && dir_exists ds (dirname out)
  then [(out, pages)] else [].

(** One turn of the loop over the names, on a readable document. *)
Definition employee_effect (doc : pdf) (date : string) (i : nat) (st : State)
  : State :=
  let st1 := after_pages doc (seq 1 (length doc)) st in
  match output_of doc (dirs st) date i with
  | (out, pages) :: _ =>
      mkState (dirs st1) (<[out := page_text doc <$> pages]> (files st1))
        (written st1 ++ [(out, pages)])
  | [] => st1
  end.

(** Writing the files of a trace one after the other. *)
Definition replay (doc : pdf) (tr : list (string * list nat))
  (m : gmap string pdf) : gmap string pdf :=
  foldl (λ m e, <[e.1 := page_text doc <$> e.2]> m) m tr.

(** The loop over the names, on a readable document. *)
Definition employees_effect (doc : pdf) (date : string) (l : list nat)
  (st : State) : State :=
  foldl (λ st i, employee_effect doc date i st) st l.

(** The per-employee files of a run, in the order they are written. *)
Definition outputs (arg1 : string) (w : World) : list (string * list nat) :=
  if String.eqb arg1 "" then []
  else match input_doc w with
       | Some doc => seq 0 (length names) ≫= output_of doc (dirs0 w) (date_of arg1)
       | None => []
       end.

(** The state when the loops are over, before the final [rm]. *)
Definition before_rm (arg1 : string) (w : World) : State :=
  match input_doc w with
  | Some doc => employees_effect doc (date_of arg1) (seq 0 (length names)) (init w)
  | None => init w
  end.

(** The file of employee [i] and the pages the run looks for. *)
Definition employee_file (arg1 : string) (i : nat) : string :=
  output_name (date_of arg1) (nth i full_names "").

Definition employee_pages (doc : pdf) (i : nat) : list nat :=
  matched doc (nth i names "").

(** The number of pages of the input document; none when it cannot be read. *)
Definition page_count (w : World) : nat := length (default [] (input_doc w)).

(** The pages of a trace, all files together. *)
Definition pages_written (tr : list (string * list nat)) : nat :=
  sum_list_with (λ e, length e.2) tr.

(** A file named with the period of the run and a full name of the script. *)
Definition named_by (arg1 : string) (e : string * list nat) : Prop :=
  ∃ full_name, full_name ∈ full_names ∧ e.1 = output_name (date_of arg1) full_name.

(** Some worlds.  Four pages, two for each of two employees, and an
    [output] directory: *)
Definition w_two_employees : World :=
  mkWorld (Some ["Bulletin de paie BERNIER Antoine"; "BERNIER Antoine (suite)";
                 "Bulletin de paie MADURA Quentin"; "MADURA Quentin (suite)"])
          None {["output"]} ∅.

(** one page that names two employees: *)
Definition w_shared_page : World :=
  mkWorld (Some ["Virement : BERNIER Antoine, MADURA Quentin"]) None {["output"]} ∅.

(** no [output] directory: *)
Definition w_no_output_dir : World :=
  mkWorld (Some ["Bulletin de paie BERNIER Antoine"]) None ∅ ∅.

(** one page that names nobody: *)
Definition w_nobody : World :=
  mkWorld (Some ["Bulletin de paie DUPONT Jeanne"]) None {["output"]} ∅.

(** an input that cannot be read, and a scratch file left behind: *)
Definition w_unreadable : World :=
  mkWorld None None {["output"]} {[temp_file := ["Bernier"]]}.



(** a stale per-employee file, and a document that names somebody else: *)
Definition w_stale_output : World :=
  mkWorld (Some ["Bulletin de paie MADURA Quentin"]) None {["output"]}
    {["output/2025-09 Bernier Antoine.pdf" := ["Bulletin de paie BERNIER (2024)"];
      "notes.pdf" := ["Notes"]]}.

(** ** The loading store (loadingStore.ts) and the keys of api.ts *)

(** A JavaScript object used as a map from names to values: the name
    [__proto__] is no entry of it; an assignment to it of a value that
    is no object does nothing, and reading it gives the prototype. *)
Definition js_set {V : Type} (key : string) (v : V) (o : gmap string V)
  : gmap string V :=
  if decide (key = "__proto__") then o else <[key := v]> o.

Definition js_get {V : Type} (key : string) (o : gmap string V) : option V :=
  if decide (key = "__proto__") then None else o !! key.

Module LoadingStore.

(** ["loading" | "done" | "error"] *)
Inductive Status : Type := Loading | Done | Error.

#[global] Instance Status_eq_dec : EqDecision Status.
Proof. solve_decision. Defined.

(** [string | boolean], the type of the [message] of [markLoading] *)
Inductive Message : Type := Text (s : string) | Flag (b : bool).

(** [!!message] *)
Definition truthy (m : Message) : bool :=
  match m with
  | Text s => negb (String.eqb s "")
  | Flag b => b
  end.

Record LoadingStoreState := mkStore {
  statePerKey : gmap string Status;
  visibleKey : string;
  message : string
}.

(** [state: () => { statePerKey: {}, visibleKey: "", message: "" }] *)
Definition state0 : LoadingStoreState := mkStore ∅ "" "".

Definition markLoading (key : string) (msg : Message) (st : LoadingStoreState)
  : LoadingStoreState :=
  mkStore (js_set key Loading (statePerKey st))
          (if truthy msg then key else "")
          (match msg with Text s => s | Flag _ => "" end).

Definition markDone (key : string) (st : LoadingStoreState) : LoadingStoreState :=
  mkStore (js_set key Done (statePerKey st)) (visibleKey st) (message st).

Definition markError (key : string) (st : LoadingStoreState) : LoadingStoreState :=
  mkStore (js_set key Error (statePerKey st)) (visibleKey st) (message st).

(** [state.statePerKey[key] === "loading"] *)
Definition isLoading (st : LoadingStoreState) (key : string) : bool :=
  bool_decide (js_get key (statePerKey st) = Some Loading).

(** [state.visibleKey && state.statePerKey[state.visibleKey] === "loading"],
    as a condition: the empty string counts as false. *)
Definition showLoadingOverlay (st : LoadingStoreState) : bool :=
  negb (String.eqb (visibleKey st) "") && isLoading st (visibleKey st).

End LoadingStore.

Module Api.

Import LoadingStore.

(** [path.endsWith("/")] *)
Fixpoint ends_with_slash (s : string) : bool :=
  match s with
  | EmptyString => false
  | String c EmptyString => is_slash c
  | String _ r => ends_with_slash r
  end.

(** [path.slice(0, -1)] *)
Fixpoint drop_last (s : string) : string :=
  match s with
  | EmptyString => EmptyString
  | String _ EmptyString => EmptyString
  | String c r => String c (drop_last r)
  end.

(** [path.startsWith("/")] *)
Definition starts_with_slash (s : string) : bool :=
  match s with
  | String c _ => is_slash c
  | EmptyString => false
  end.

(** [path.slice(1)] *)
Definition drop_first (s : string) : string :=
  match s with
  | String _ r => r
  | EmptyString => EmptyString
  end.

(** [path.split("/")]: the pieces between the slashes; one empty piece
    for the empty string. *)
Fixpoint split_slash (s : string) : list string :=
  match s with
  | EmptyString => [EmptyString]
  | String c r =>
      if is_slash c then EmptyString :: split_slash r
      else match split_slash r with
           | w :: ws => String c w :: ws
           | [] => [String c EmptyString]
           end
  end.

Fixpoint digits_only (s : string) : bool :=
  match s with
  | EmptyString => true
  | String c r => is_digit c && digits_only r
  end.

(** [/^\d+$/.test(word)] *)
Definition is_number (word : string) : bool :=
  negb (String.eqb word "") && digits_only word.

(** [toUpperCase] on a character, for the characters of ASCII. *)
Definition upper_ascii (c : ascii) : ascii :=
  let n := nat_of_ascii c in
  if (97 <=? n)%nat && (n <=? 122)%nat then ascii_of_nat (n - 32) else c.

(** [word[0].toUpperCase() + word.slice(1)]; on the empty word [word[0]]
    is undefined and the call throws. *)
Definition capitalize (word : string) : option string :=
  match word with
  | EmptyString => None
  | String c r => Some (String (upper_ascii c) r)
  end.

(** [words.join("")] *)
Definition join_words (words : list string) : string :=
  foldr String.append EmptyString words.

(** The key of a list of words: the numbers are left out, the words
    after the first are capitalized. *)
Definition key_of_words (words : list string) : option string :=
  match filter (λ word, is_number word = false) words with
  | [] => Some EmptyString
  | first :: others =>
      match mapM capitalize others with
      | Some others' => Some (join_words (first :: others'))
      | None => None
      end
  end.

(** [makeLoadingKey]; [None] when it throws.  Paths are of ASCII
    characters. *)
Definition makeLoadingKey (path : string) : option string :=
  let path := if ends_with_slash path then drop_last path else path in
  let path := if starts_with_slash path then drop_first path else path in
  key_of_words (split_slash path).

(** The key [useApiRequest] marks: [customKey], or the key of the path
    when [customKey] is empty. *)
Definition request_key (path customKey : string) : option string :=
  if String.eqb customKey "" then makeLoadingKey path else Some customKey.

(** What [useApiRequest] does to the loading store when no other
    request comes in between: [markLoading] before the request is sent,
    [markError] or [markDone] when the answer is there.  [None] when
    [makeLoadingKey] throws, before anything is marked. *)
Definition useApiRequest_loading (path : string) (spinnerMessage : Message)
  (customKey : string) (failed : bool) (st : LoadingStoreState)
  : option LoadingStoreState :=
  match request_key path customKey with
  | Some key =>
      let st := markLoading key spinnerMessage st in
      Some (if failed then markError key st else markDone key st)
  | None => None
  end.

(** [cookie.split("; ")]: the pieces between the separators, read from
    the left. *)
Fixpoint split_rows (s : string) : list string :=
  match s with
  | EmptyString => [EmptyString]
  | String c r =>
      let more := split_rows r in
      let cons_c := match more with
                    | w :: ws => String c w :: ws
                    | [] => [String c EmptyString]
                    end in
      match r with
      | String c' r' =>
          if Ascii.eqb c ";" && Ascii.eqb c' " "
          then EmptyString :: split_rows r'
          else cons_c
      | EmptyString => cons_c
      end
  end.

(** [row.split("=")] *)
Fixpoint split_equals (s : string) : list string :=
  match s with
  | EmptyString => [EmptyString]
  | String c r =>
      if Ascii.eqb c "="
      then EmptyString :: split_equals r
      else match split_equals r with
           | w :: ws => String c w :: ws
           | [] => [String c EmptyString]
           end
  end.

(** [getCsrfCookie], on the cookie string the page or the request has
    ([None]: undefined); [None] when it returns null or undefined. *)
Definition getCsrfCookie (cookie : option string) : option string :=
  match cookie with
  | None | Some EmptyString => None              (* !cookie *)
  | Some cookie =>
      match List.find (starts_with "csrftoken=") (split_rows cookie) with
      | None => None                             (* !csrfRow *)
      | Some csrfRow => split_equals csrfRow !! 1
      end
  end.

(** The rows of a cookie string put together. *)
Definition cookie_of (rows : list string) : string := String.concat "; " rows.

(** The text before the first [=]. *)
Fixpoint before_equals (s : string) : string :=
  match s with
  | EmptyString => EmptyString
  | String c r => if Ascii.eqb c "=" then EmptyString else String c (before_equals r)
  end.

Fixpoint has_semicolon (s : string) : bool :=
  match s with
  | EmptyString => false
  | String c r => Ascii.eqb c ";" || has_semicolon r
  end.

(** The path made of words: the words with a slash between them. *)
Definition path_of (words : list string) : string := String.concat "/" words.

(** A piece of a path: not empty, with no slash. *)
Definition piece (word : string) : Prop := word ≠ "" ∧ has_slash word = false.

(** A text of ASCII characters, on which [upper_ascii] is [toUpperCase]. *)
Fixpoint ascii_text (s : string) : bool :=
  match s with
  | EmptyString => true
  | String c r => (nat_of_ascii c <? 128)%nat && ascii_text r
  end.

(** A word of a path that counts for the key: a piece of ASCII
    characters that is no number. *)
Definition key_word (word : string) : Prop :=
  piece word ∧ is_number word = false ∧ ascii_text word = true.

(** A word as [makeLoadingKey] puts it after the first: with its first
    letter in upper case. *)
Definition capitalized (word : string) : string := default word (capitalize word).

End Api.

(** * Properties *)

(** ** Text *)

Example lines_two : lines ("ab" +:+ String LF "cd") = ["ab"; "cd"].
Proof. reflexivity. Qed.

Example lines_ended : lines ("ab" +:+ String LF (String LF "")) = ["ab"; ""].
Proof. reflexivity. Qed.

Example cut_here : cut_d_sp_f1 (here_string "2025-09 BP.pdf") = "2025-09" +:+ String LF "".
Proof. reflexivity. Qed.

Example grep_upper : grep_qi "Bernier" "Bulletin de paie BERNIER Antoine" = true.
Proof. reflexivity. Qed.

Example grep_no_line : grep_qi "" "" = false.
Proof. reflexivity. Qed.

Example scratch_is_written : writes_input "temp.pdf" = true.
Proof. reflexivity. Qed.

Example scratch_by_path_is_written : writes_input "./temp.pdf" = true.
Proof. reflexivity. Qed.

Example input_folder_is_read : writes_input "input/2025-09 BP.pdf" = false.
Proof. reflexivity. Qed.

Lemma names_letters : Forall (λ n, n ≠ "" ∧ letters_only n = true) names.
Proof. repeat constructor; discriminate. Qed.

Lemma append_cons (c : ascii) (s t : string) :
  String c s +:+ t = String c (s +:+ t).
Proof. reflexivity. Qed.

Lemma append_nil_r (s : string) : s +:+ "" = s.
Proof. induction s as [|c s IH]; [done|]. by rewrite append_cons, IH. Qed.

Lemma append_assoc (s t u : string) : (s +:+ t) +:+ u = s +:+ (t +:+ u).
Proof. induction s as [|c s IH]; [done|]. by rewrite !append_cons, IH. Qed.

Lemma length_append (s t : string) :
  String.length (s +:+ t) = String.length s + String.length t.
Proof. induction s as [|c s IH]; [done|]. rewrite append_cons. simpl. by rewrite IH. Qed.

(** Cancelling a common ending. *)
Lemma append_inj_r (u s t : string) : s +:+ u = t +:+ u → s = t.
Proof.
  revert t. induction s as [|c s IH]; intros [|d t] H.
  - done.
  - apply (f_equal String.length) in H.
    rewrite !length_append in H. simpl in H. lia.
  - apply (f_equal String.length) in H.
    rewrite !length_append in H. simpl in H. lia.
  - rewrite !append_cons in H. injection H as -> H. f_equal. by apply IH.
Qed.

Lemma is_LF_lower (c : ascii) : is_LF (lower_ascii c) = is_LF c.
Proof. by destruct c as [[] [] [] [] [] [] [] []]. Qed.

Lemma letter_not_LF (c : ascii) : is_letter c = true → is_LF c = false.
Proof. by destruct c as [[] [] [] [] [] [] [] []]. Qed.

Lemma head_line_lower (s : string) : head_line (lower s) = lower (head_line s).
Proof.
  induction s as [|c s IH]; [done|]. simpl. rewrite is_LF_lower.
  destruct (is_LF c); [done|]. simpl. by rewrite IH.
Qed.

Lemma lines_lower (s : string) : lines (lower s) = map lower (lines s).
Proof.
  induction s as [|c s IH]; [done|]. simpl. rewrite is_LF_lower, IH.
  destruct (is_LF c); simpl; [done|].
  rewrite head_line_lower. f_equal. by destruct (lines s).
Qed.

Lemma lines_head_tail (s : string) :
  s ≠ "" → lines s = head_line s :: tail (lines s).
Proof. destruct s as [|c s]; [done|]. intros _. simpl. by destruct (is_LF c). Qed.

Lemma no_LF_lower (s : string) : letters_only s = true → no_LF (lower s) = true.
Proof.
  induction s as [|c s IH]; [done|]. simpl.
  intros [Hc Hs]%andb_true_iff. rewrite is_LF_lower, (letter_not_LF c Hc). simpl. auto.
Qed.

(** A text with no newline cannot start with a newline or run over one. *)
Lemma starts_with_head_line (n s : string) :
  no_LF n = true → starts_with n (head_line s) = starts_with n s.
Proof.
  revert s. induction n as [|a n IH]; intros s Hn; [done|].
  simpl in Hn. apply andb_true_iff in Hn as [Ha Hn].
  destruct s as [|b s]; [done|]. simpl.
  destruct (is_LF b) eqn:Hb; simpl.
  - unfold is_LF in *. apply Ascii.eqb_eq in Hb as ->.
    destruct (Ascii.eqb a LF); [done|]. done.
  - by rewrite IH.
Qed.

(** A name that is not empty and has no newline occurs in a text exactly
    when it occurs in one of its lines. *)
Lemma occurs_in_lines (n s : string) :
  n ≠ "" → no_LF n = true →
  existsb (occurs_in n) (lines s) = occurs_in n s.
Proof.
  intros Hne Hn. induction s as [|c s IH].
  - simpl. by destruct n.
  - cbn [lines]. destruct (is_LF c) eqn:Hc.
    + cbn [existsb]. rewrite IH. cbn [occurs_in].
      replace (starts_with n "") with false by (by destruct n).
      replace (starts_with n (String c s)) with false; [done|].
      destruct n as [|a n]; [done|]. simpl in *.
      unfold is_LF in *. apply Ascii.eqb_eq in Hc as ->.
      by destruct (Ascii.eqb a LF).
    + cbn [existsb]. cbn [occurs_in].
      replace (starts_with n (String c (head_line s)))
        with (starts_with n (String c s)).
      2:{ rewrite <- (starts_with_head_line n (String c s)) by done.
          simpl. by rewrite Hc. }
      rewrite <- orb_assoc. f_equal. rewrite <- IH.
      destruct s as [|d s].
      * simpl. by destruct n.
      * by rewrite (lines_head_tail (String d s)).
Qed.

Lemma existsb_map_lower (n : string) (ls : list string) :
  existsb (fun line => occurs_in n (lower line)) ls
  = existsb (occurs_in n) (map lower ls).
Proof. induction ls as [|l ls IH]; [done|]. simpl. by rewrite IH. Qed.

Lemma grep_qi_occurs (name text : string) :
  name ≠ "" → letters_only name = true →
  grep_qi name text = occurs_in (lower name) (lower text).
Proof.
  intros Hne Hl. unfold grep_qi.
  rewrite existsb_map_lower, <- lines_lower.
  apply occurs_in_lines; [by destruct name | by apply no_LF_lower].
Qed.

Lemma head_line_here (s : string) :
  no_LF s = true → head_line (s +:+ String LF "") = s.
Proof.
  induction s as [|c s IH]; [done|].
  simpl. intros [Hc Hs]%andb_true_iff.
  destruct (is_LF c); [done|]. by rewrite IH.
Qed.

(** The here-string of a word of one line is that one line. *)
Lemma lines_here (s : string) : no_LF s = true → lines (here_string s) = [s].
Proof.
  unfold here_string. induction s as [|c s IH]; [done|].
  simpl. intros [Hc Hs]%andb_true_iff.
  destruct (is_LF c); [done|].
  rewrite (head_line_here s Hs), (IH Hs). done.
Qed.

Lemma command_subst_line (s : string) :
  no_LF s = true → command_subst (s +:+ String LF "") = s.
Proof.
  induction s as [|c s IH]; [done|].
  simpl. intros [Hc Hs]%andb_true_iff. rewrite ?append_cons. simpl.
  rewrite (IH Hs). destruct (is_LF c); [done|]. by destruct s.
Qed.

Lemma no_LF_cut_f1 (s : string) : no_LF s = true → no_LF (cut_f1 s) = true.
Proof.
  induction s as [|c s IH]; [done|].
  simpl. intros [Hc Hs]%andb_true_iff. destruct (is_SP c); [done|].
  simpl. rewrite Hc. auto.
Qed.

Lemma no_SP_cut_f1 (s : string) : no_SP (cut_f1 s) = true.
Proof.
  induction s as [|c s IH]; [done|]. simpl.
  destruct (is_SP c) eqn:Hc; [done|]. simpl. by rewrite Hc.
Qed.

Lemma cut_f1_no_SP (s : string) : no_SP s = true → cut_f1 s = s.
Proof.
  induction s as [|c s IH]; [done|].
  simpl. intros [Hc Hs]%andb_true_iff.
  destruct (is_SP c); [done|]. by rewrite IH.
Qed.

Lemma cut_f1_field (y rest : string) :
  no_SP y = true → cut_f1 (y +:+ String SP rest) = y.
Proof.
  induction y as [|c y IH]; [done|].
  simpl. intros [Hc Hy]%andb_true_iff. rewrite ?append_cons. simpl.
  destruct (is_SP c); [done|]. by rewrite IH.
Qed.

(** The first field ends at the end of the line or before a space. *)
Lemma cut_f1_split (s : string) :
  ∃ rest, s = cut_f1 s +:+ rest ∧ (rest = "" ∨ ∃ r, rest = String SP r).
Proof.
  induction s as [|c s (rest & Hs & Hrest)].
  - exists "". auto.
  - simpl. destruct (is_SP c) eqn:Hc.
    + exists (String c s). split; [done|]. right.
      unfold is_SP in Hc. apply Ascii.eqb_eq in Hc as ->. eauto.
    + exists rest. rewrite ?append_cons. by rewrite <- Hs.
Qed.

Lemma is_period_plain (y : string) :
  is_period y = true → no_SP y = true ∧ no_LF y = true.
Proof.
  assert (Hd : ∀ c, is_digit c = true → is_SP c = false ∧ is_LF c = false).
  { by intros [[] [] [] [] [] [] [] []]. }
  assert (Hm : ∀ c, is_dash c = true → is_SP c = false ∧ is_LF c = false).
  { by intros [[] [] [] [] [] [] [] []]. }
  destruct y as [|y1 [|y2 [|y3 [|y4 r]]]]; try done. cbn [is_period].
  intros [[[[H1%Hd H2%Hd]%andb_true_iff H3%Hd]%andb_true_iff
    H4%Hd]%andb_true_iff Hr]%andb_true_iff.
  cbn [no_SP no_LF].
  destruct H1 as [-> ->], H2 as [-> ->], H3 as [-> ->], H4 as [-> ->].
  destruct r as [|d [|m1 [|m2 [|? ?]]]]; try done.
  apply andb_true_iff in Hr as [[H5%Hm H6%Hd]%andb_true_iff H7%Hd].
  cbn [no_SP no_LF].
  destruct H5 as [-> ->], H6 as [-> ->], H7 as [-> ->]. done.
Qed.


(** ** The loops *)

Lemma for_each_fold {A : Type} (body : A → sh unit) (f : A → State → State)
    (l : list A) (st : State) :
  (∀ x st, body x st = (tt, f x st)) →
  for_each body l st = (tt, foldl (λ st x, f x st) st l).
Proof.
  intros Hf. revert st. induction l as [|x l IH]; intros st; [done|].
  simpl. unfold bind. by rewrite Hf, IH.
Qed.

Lemma output_name_not_temp (date full_name : string) :
  output_name date full_name ≠ temp_file.
Proof. done. Qed.

Lemma output_name_inj (date f1 f2 : string) :
  output_name date f1 = output_name date f2 → f1 = f2.
Proof.
  unfold output_name. intros H.
  do 3 apply String.app_inj in H. by apply append_inj_r in H.
Qed.

Lemma dirname_output_name (date full_name : string) :
  dirname (output_name date full_name) ≠ ".".
Proof. done. Qed.

(** On an unreadable input no turn of the loop over the names changes
    anything: [pdftk] fails each time. *)
Lemma split_employee_unreadable (date : string) (i : nat) (st : State) :
  split_employee None date i st = (tt, st).
Proof.
  unfold split_employee, number_of_pages, seq_1.
  change (length <$> None) with (@None nat). cbv beta iota zeta.
  set (name := nth i names "").
  set (out := output_name date (nth i full_names "")).
  unfold for_pages, scan_page, bind, pdftk_cat_output, pdftk_cat, pdftotext,
    cat_pages, ret.
  destruct (files st !! temp_file); destruct (grep_qi name _); done.
Qed.

(** *** On a readable document *)

Section Readable.

Variable doc : pdf.
Variable date : string.

Lemma scan_page_readable (name : string) (p : nat) (acc : list nat) (st : State) :
  is_Some (page_at doc p) →
  scan_page (Some doc) name p acc st
  = (if grep_qi name (page_text doc p) then acc ++ [p] else acc,
     after_pages doc [p] st).
Proof.
  intros [t Ht]. unfold scan_page, bind, pdftk_cat, cat_pages, page_text.
  simpl. rewrite Ht. simpl.
  unfold pdftotext. simpl. rewrite lookup_insert_eq. simpl.
  rewrite append_nil_r. unfold after_pages, page_text. simpl. rewrite Ht. simpl.
  by destruct (grep_qi name t).
Qed.

Lemma after_pages_cons (p : nat) (todo : list nat) (st : State) :
  after_pages doc todo (after_pages doc [p] st) = after_pages doc (p :: todo) st.
Proof.
  destruct todo as [|q todo]; [done|].
  unfold after_pages at 1 3. rewrite last_cons_cons.
  destruct (last (q :: todo)) as [x|] eqn:Hx.
  - simpl. by rewrite insert_insert_eq.
  - by apply last_None in Hx.
Qed.

(** The loop over the pages finds the pages that match, in the order
    it goes through them. *)
Lemma for_pages_readable (name : string) (todo acc : list nat) (st : State) :
  Forall (λ p, is_Some (page_at doc p)) todo →
  for_pages (Some doc) name todo acc st
  = (acc ++ filter (λ p, grep_qi name (page_text doc p) = true) todo,
     after_pages doc todo st).
Proof.
  intros Hin. revert acc st.
  induction Hin as [|p todo Hp Hin IH]; intros acc st.
  - simpl. unfold ret. by rewrite app_nil_r.
  - cbn [for_pages]. unfold bind at 1. rewrite (scan_page_readable _ _ _ _ Hp).
    rewrite IH, after_pages_cons, filter_cons.
    destruct (grep_qi name (page_text doc p)); case_decide; try done.
    by rewrite <- app_assoc.
Qed.

Lemma pages_of_document :
  Forall (λ p, is_Some (page_at doc p)) (seq 1 (length doc)).
Proof.
  apply Forall_forall. intros p [H1 H2]%elem_of_seq.
  destruct p as [|k]; [lia|]. simpl. apply lookup_lt_is_Some. lia.
Qed.

Lemma matched_in_document (name : string) :
  Forall (λ p, is_Some (page_at doc p)) (matched doc name).
Proof.
  apply Forall_forall. intros p [_ Hp]%list_elem_of_filter.
  revert p Hp. apply Forall_forall, pages_of_document.
Qed.

Lemma cat_pages_readable (ps : list nat) :
  Forall (λ p, is_Some (page_at doc p)) ps →
  cat_pages (Some doc) ps = Some (page_text doc <$> ps).
Proof.
  intros H. unfold cat_pages. apply mapM_Some.
  induction H as [|p ps [t Ht] H IH]; constructor; [|done].
  unfold page_text. by rewrite Ht.
Qed.

Lemma dirs_after_pages (todo : list nat) (st : State) :
  dirs (after_pages doc todo st) = dirs st.
Proof. unfold after_pages. by destruct (last todo). Qed.

Lemma written_after_pages (todo : list nat) (st : State) :
  written (after_pages doc todo st) = written st.
Proof. unfold after_pages. by destruct (last todo). Qed.

Lemma files_after_pages (todo : list nat) (st : State) (f : string) :
  f ≠ temp_file → files (after_pages doc todo st) !! f = files st !! f.
Proof.
  intros Hf. unfold after_pages. destruct (last todo); [|done].
  simpl. by rewrite lookup_insert_ne.
Qed.

(** One turn of the loop over the names is [employee_effect]. *)
Lemma split_employee_readable (i : nat) (st : State) :
  split_employee (Some doc) date i st = (tt, employee_effect doc date i st).
Proof.
  unfold split_employee, employee_effect, output_of, number_of_pages, seq_1.
  change (length <$> Some doc) with (Some (length doc)). cbv beta iota zeta.
  set (name := nth i names "").
  set (out := output_name date (nth i full_names "")).
  unfold bind at 1.
  rewrite (for_pages_readable _ _ _ _ pages_of_document).
  rewrite app_nil_l. fold (matched doc name).
  set (pages := matched doc name).
  rewrite <- (dirs_after_pages (seq 1 (length doc)) st).
  set (st1 := after_pages doc (seq 1 (length doc)) st).
  destruct (0 <? length pages); [|done].
  unfold bind, pdftk_cat_output, pdftk_cat.
  rewrite (cat_pages_readable pages (matched_in_document _)).
  by destruct (dir_exists (dirs st1) (dirname out)).
Qed.

Lemma output_of_cases (ds : gset string) (i : nat) :
  output_of doc ds date i = []
  ∨ output_of doc ds date i
    = [(output_name date (nth i full_names ""), matched doc (nth i names ""))].
Proof. unfold output_of. destruct (_ && _); auto. Qed.

(** The two cases of a turn: no file, or the file of the employee. *)
Local Ltac turn_cases i st :=
  unfold employee_effect;
  destruct (output_of_cases (dirs st) i) as [-> | ->]; simpl.

Lemma dirs_employee_effect (i : nat) (st : State) :
  dirs (employee_effect doc date i st) = dirs st.
Proof. turn_cases i st; apply dirs_after_pages. Qed.

Lemma written_employee_effect (i : nat) (st : State) :
  written (employee_effect doc date i st)
  = written st ++ output_of doc (dirs st) date i.
Proof.
  turn_cases i st; rewrite written_after_pages; [by rewrite app_nil_r | done].
Qed.

Lemma files_employee_effect (i : nat) (st : State) (f : string) :
  f ≠ temp_file →
  files (employee_effect doc date i st) !! f
  = replay doc (output_of doc (dirs st) date i) (files st) !! f.
Proof.
  intros Hf. turn_cases i st.
  - by apply files_after_pages.
  - destruct (decide (output_name date (nth i full_names "") = f)) as [<- | Hne].
    + by rewrite !lookup_insert_eq.
    + rewrite !lookup_insert_ne by done. by apply files_after_pages.
Qed.

(** After a turn on a document that has a page the scratch file is
    there. *)
Lemma temp_employee_effect (i : nat) (st : State) :
  doc ≠ [] → is_Some (files (employee_effect doc date i st) !! temp_file).
Proof.
  intros Hdoc.
  assert (H1 : is_Some (files (after_pages doc (seq 1 (length doc)) st) !! temp_file)).
  { unfold after_pages. destruct (last _) as [p|] eqn:Hl.
    - simpl. rewrite lookup_insert_eq. eauto.
    - apply last_None in Hl. by destruct doc. }
  turn_cases i st; [done|].
  rewrite lookup_insert_ne; [done|]. apply output_name_not_temp.
Qed.

Lemma replay_agree (tr : list (string * list nat)) (m m' : gmap string pdf)
    (f : string) :
  m !! f = m' !! f → replay doc tr m !! f = replay doc tr m' !! f.
Proof.
  revert m m'. induction tr as [|[out ps] tr IH]; intros m m' H; [done|].
  simpl. apply IH. destruct (decide (out = f)) as [-> | Hne].
  - by rewrite !lookup_insert_eq.
  - by rewrite !lookup_insert_ne.
Qed.

Lemma replay_app (tr1 tr2 : list (string * list nat)) (m : gmap string pdf) :
  replay doc (tr1 ++ tr2) m = replay doc tr2 (replay doc tr1 m).
Proof. apply foldl_app. Qed.

(** The file a trace leaves under a name it gives to one list of pages
    only. *)
Lemma replay_lookup (tr : list (string * list nat)) (m : gmap string pdf)
    (f : string) (ps : list nat) :
  (f, ps) ∈ tr → (∀ ps', (f, ps') ∈ tr → ps' = ps) →
  replay doc tr m !! f = Some (page_text doc <$> ps).
Proof.
  induction tr as [|[out ps'] tr IH] using rev_ind; [by intros ?%elem_of_nil|].
  intros Hin Huniq. rewrite replay_app. simpl.
  destruct (decide (out = f)) as [-> | Hne].
  - rewrite lookup_insert_eq. f_equal. f_equal. apply Huniq.
    apply elem_of_app. right. by apply list_elem_of_singleton.
  - rewrite lookup_insert_ne by done. apply IH.
    + apply elem_of_app in Hin as [Hin | Hin%list_elem_of_singleton]; [done|].
      congruence.
    + intros ps'' H. apply Huniq, elem_of_app. by left.
Qed.

Lemma dirs_employees_effect (l : list nat) (st : State) :
  dirs (employees_effect doc date l st) = dirs st.
Proof.
  unfold employees_effect. revert st.
  induction l as [|i l IH]; intros st; [done|].
  simpl. by rewrite IH, dirs_employee_effect.
Qed.

(** The trace of the loop over the names: the files of the employees,
    one after the other. *)
Lemma written_employees_effect (l : list nat) (st : State) :
  written (employees_effect doc date l st)
  = written st ++ (l ≫= output_of doc (dirs st) date).
Proof.
  unfold employees_effect. revert st. induction l as [|i l IH]; intros st.
  - simpl. by rewrite app_nil_r.
  - simpl. rewrite IH, written_employee_effect, dirs_employee_effect.
    by rewrite <- app_assoc.
Qed.

(** The files after the loop over the names, the scratch file apart:
    the files of the trace written over the files before. *)
Lemma files_employees_effect (l : list nat) (st : State) (f : string) :
  f ≠ temp_file →
  files (employees_effect doc date l st) !! f
  = replay doc (l ≫= output_of doc (dirs st) date) (files st) !! f.
Proof.
  intros Hf. unfold employees_effect. revert st.
  induction l as [|i l IH]; intros st; [done|].
  rewrite bind_cons, replay_app. simpl. rewrite IH, dirs_employee_effect.
  apply replay_agree. by apply files_employee_effect.
Qed.

Lemma temp_employees_effect (l : list nat) (st : State) :
  doc ≠ [] → l ≠ [] →
  is_Some (files (employees_effect doc date l st) !! temp_file).
Proof.
  intros Hdoc Hl. destruct l as [|i l _] using rev_ind; [done|].
  unfold employees_effect. rewrite foldl_app. simpl.
  by apply temp_employee_effect.
Qed.

(** Every file of the trace holds at most the pages of the document, and
    there is at most one file for each turn. *)
Lemma outputs_bound (ds : gset string) (l : list nat) :
  Forall (λ e, length e.2 ≤ length doc) (l ≫= output_of doc ds date)
  ∧ length (l ≫= output_of doc ds date) ≤ length l
  ∧ pages_written (l ≫= output_of doc ds date) ≤ length l * length doc.
Proof.
  assert (Hm : ∀ i, length (matched doc (nth i names "")) ≤ length doc).
  { intros i. unfold matched. etrans; [apply length_filter|]. by rewrite length_seq. }
  unfold pages_written.
  induction l as [|i l (IH1 & IH2 & IH3)]; [by repeat split|].
  rewrite bind_cons, Forall_app, length_app, sum_list_with_app.
  specialize (Hm i).
  destruct (output_of_cases ds i) as [-> | ->]; simpl in *.
  - split_and!; [constructor | done | lia | lia].
  - split_and!; [by apply Forall_singleton | done | lia | lia].
Qed.

End Readable.

(** ** The whole run *)

Lemma run_script_no_arg (w : World) : run_script "" w = (1, init w).
Proof. reflexivity. Qed.

Lemma run_script_arg (arg1 : string) (w : World) :
  arg1 ≠ "" → run_script arg1 w = rm temp_file (before_rm arg1 w).
Proof.
  intros Harg%String.eqb_neq. unfold run_script, script, before_rm.
  rewrite Harg. unfold bind. destruct (input_doc w) as [doc|].
  - by rewrite (for_each_fold _ (employee_effect doc (date_of arg1)) _ _
      (split_employee_readable doc (date_of arg1))).
  - rewrite (for_each_fold _ (λ _ st, st) _ _
      (split_employee_unreadable (date_of arg1))).
    done.
Qed.

Lemma rm_files (f : string) (st : State) :
  files (rm f st).2 = delete f (files st).
Proof.
  unfold rm. destruct (files st !! f) eqn:Hf; simpl; [done|].
  by rewrite delete_id.
Qed.

Lemma rm_dirs (f : string) (st : State) : dirs (rm f st).2 = dirs st.
Proof. unfold rm. by destruct (files st !! f). Qed.

Lemma rm_written (f : string) (st : State) : written (rm f st).2 = written st.
Proof. unfold rm. by destruct (files st !! f). Qed.

Lemma rm_status (f : string) (st : State) :
  is_Some (files st !! f) → (rm f st).1 = 0.
Proof. intros [doc Hf]. unfold rm. by rewrite Hf. Qed.

Lemma final_dirs (arg1 : string) (w : World) : dirs (final arg1 w) = dirs0 w.
Proof.
  unfold final. destruct (decide (arg1 = "")) as [-> | Harg]; [done|].
  rewrite (run_script_arg _ _ Harg). simpl. rewrite rm_dirs. unfold before_rm.
  destruct (input_doc w); [|done]. by rewrite dirs_employees_effect.
Qed.

Lemma final_written (arg1 : string) (w : World) :
  written (final arg1 w) = outputs arg1 w.
Proof.
  unfold final, outputs. destruct (decide (arg1 = "")) as [-> | Harg]; [done|].
  rewrite (run_script_arg _ _ Harg). simpl. rewrite rm_written.
  apply String.eqb_neq in Harg as ->. unfold before_rm.
  destruct (input_doc w); [|done]. by rewrite written_employees_effect.
Qed.

(** Apart from the scratch file, the files after a run are the files
    before it with the per-employee files written over them. *)
Lemma final_files (arg1 : string) (w : World) (f : string) :
  f ≠ temp_file →
  files (final arg1 w) !! f
  = replay (default [] (input_doc w)) (outputs arg1 w) (files0 w) !! f.
Proof.
  intros Hf. unfold final, outputs.
  destruct (decide (arg1 = "")) as [-> | Harg]; [done|].
  rewrite (run_script_arg _ _ Harg). simpl. rewrite rm_files.
  rewrite lookup_delete_ne by done.
  apply String.eqb_neq in Harg as ->. unfold before_rm.
  destruct (input_doc w) as [doc|]; [|done].
  by rewrite files_employees_effect.
Qed.

Lemma final_temp (arg1 : string) (w : World) :
  arg1 ≠ "" → files (final arg1 w) !! temp_file = None.
Proof.
  intros Harg. unfold final. rewrite (run_script_arg _ _ Harg). simpl.
  rewrite rm_files. apply lookup_delete_eq.
Qed.

Lemma exit_status_readable (arg1 : string) (w : World) (doc : pdf) :
  arg1 ≠ "" → input_doc w = Some doc → doc ≠ [] → exit_status arg1 w = 0.
Proof.
  intros Harg Hdoc Hne. unfold exit_status. rewrite (run_script_arg _ _ Harg).
  apply rm_status. unfold before_rm. rewrite Hdoc.
  by apply temp_employees_effect.
Qed.

(** What it takes for a file to be in the trace of a run. *)
Lemma outputs_elem (arg1 : string) (w : World) (out : string) (ps : list nat) :
  (out, ps) ∈ outputs arg1 w ↔
  arg1 ≠ "" ∧ ∃ doc i,
    input_doc w = Some doc ∧ i < length names ∧
    out = output_name (date_of arg1) (nth i full_names "") ∧
    ps = matched doc (nth i names "") ∧ ps ≠ [] ∧
    dir_exists (dirs0 w) (dirname out) = true.
Proof.
  unfold outputs. destruct (String.eqb_spec arg1 "") as [-> | Harg].
  { split; [by intros ?%elem_of_nil | by intros [? _]]. }
  destruct (input_doc w) as [doc|].
  2:{ split; [by intros ?%elem_of_nil | by intros (_ & ? & ? & ? & _)]. }
  rewrite list_elem_of_bind. split.
  - intros (i & Hin & Hi%elem_of_seq). split; [done|]. exists doc, i.
    unfold output_of in Hin.
    destruct (0 <? length _) eqn:Hlen; cbn [andb] in Hin;
      [|apply elem_of_nil in Hin; contradiction].
    destruct (dir_exists _ _) eqn:Hdir; cbv iota in Hin;
      [|apply elem_of_nil in Hin; contradiction].
    apply list_elem_of_singleton in Hin. injection Hin as -> ->.
    repeat split; [lia | | done].
    apply Nat.ltb_lt in Hlen.
    destruct (matched _ _); [simpl in Hlen; lia | done].
  - intros (_ & doc' & i & [= <-] & Hi & -> & -> & Hps & Hdir).
    exists i. split; [|apply elem_of_seq; lia].
    unfold output_of. rewrite Hdir.
    destruct (matched doc (nth i names "")); [done|]. cbn [length Nat.ltb Nat.leb andb].
    by apply list_elem_of_singleton.
Qed.


Lemma date_of_line (arg1 : string) : no_LF arg1 = true → date_of arg1 = cut_f1 arg1.
Proof.
  intros H. unfold date_of, cut_d_sp_f1. rewrite (lines_here arg1 H).
  simpl. apply command_subst_line, no_LF_cut_f1, H.
Qed.

Lemma full_names_NoDup : NoDup full_names.
Proof. compute_done. Qed.

Lemma full_name_inj (i j : nat) :
  i < length names → j < length names →
  nth i full_names "" = nth j full_names "" → i = j.
Proof. apply (NoDup_nth full_names ""), NoDup_ListNoDup, full_names_NoDup. Qed.



(** Every file of the trace is named with the period and one of the
    full names of the script. *)
Lemma written_named (arg1 : string) (w : World) :
  Forall (named_by arg1) (written (final arg1 w)).
Proof.
  apply Forall_forall. intros [out ps]. rewrite final_written.
  intros (_ & doc & i & _ & Hi & -> & _)%outputs_elem.
  exists (nth i full_names ""). split; [|done].
  apply list_elem_of_In, nth_In. exact Hi.
Qed.

(** ** The claims *)



(** C2, as the script has it: every file written holds at most as many
    pages as the input document, there are at most as many files as
    names, and so the pages written are at most the number of names
    times the number of pages of the document. *)
Theorem C2_pages_written_bound (arg1 : string) (w : World) :
  Forall (λ e, length e.2 ≤ page_count w) (written (final arg1 w))
  ∧ length (written (final arg1 w)) ≤ length names
  ∧ pages_written (written (final arg1 w)) ≤ length names * page_count w.
Proof.
  rewrite final_written. unfold outputs, page_count.
  destruct (String.eqb arg1 ""); [split_and!; [constructor | simpl; lia..]|].
  destruct (input_doc w) as [doc|]; [|split_and!; [constructor | simpl; lia..]].
  pose proof (outputs_bound doc (date_of arg1) (dirs0 w) (seq 0 (length names))) as H.
  by rewrite length_seq in H.
Qed.

(** C2 fails as stated: a page that names two employees is written
    twice, and a document of one page gives two pages of output. *)
Lemma C2_counterexample :
  page_count w_shared_page = 1
  ∧ ¬ (pages_written (written (final "2025-09 BP.pdf" w_shared_page))
       ≤ page_count w_shared_page).
Proof. split; [reflexivity|]. vm_compute. lia. Qed.

(** C3, as the script has it: matching is blind to letter case and
    not to accents.  A name of letters is found in every text that
    holds it up to letter case, and in a text of ASCII characters it is
    found in no other; [Bernier] is found in the line that names
    [BERNIER Antoine], and [legeron] is not found in [Légeron], no
    accent being stripped. *)
Theorem C3_name_matching_case_insensitive (needle haystack : string) :
  needle ≠ "" → letters_only needle = true →
  (occurs_in (lower needle) (lower haystack) = true →
   grep_qi needle haystack = true)
  ∧ (ascii_only haystack = true →
     (grep_qi needle haystack = true
      ↔ occurs_in (lower needle) (lower haystack) = true))
  ∧ grep_qi "Bernier" "Période de paie : du 01/09/2025 pour BERNIER Antoine" = true
  ∧ grep_qi "legeron" "Légeron" = false.
Proof.
  intros Hne Hl. split_and!.
  - by rewrite grep_qi_occurs.
  - intros _. by rewrite grep_qi_occurs.
  - reflexivity.
  - reflexivity.
Qed.

Lemma C3_witness :
  grep_qi "Bellec" "Net a payer : BELLEC Maxime" = true
  ∧ (grep_qi "Bellec" "Net a payer : BELLEC Maxime" = true
     ↔ occurs_in (lower "Bellec") (lower "Net a payer : BELLEC Maxime") = true)
  ∧ grep_qi "Bernier" "Période de paie : du 01/09/2025 pour BERNIER Antoine" = true
  ∧ grep_qi "legeron" "Légeron" = false.
Proof.
  destruct (C3_name_matching_case_insensitive "Bellec" "Net a payer : BELLEC Maxime")
    as (H1 & H2 & H3 & H4).
  - discriminate.
  - reflexivity.
  - split_and!.
    + apply H1. reflexivity.
    + apply H2. reflexivity.
    + exact H3.
    + exact H4.
Defined.

(** C3 fails as stated: the accented spelling of a name is not found. *)
Lemma C3_counterexample : grep_qi "legeron" "Légeron" = false.
Proof. reflexivity. Qed.

(** C4, as the script has it: the period comes from the path argument
    alone; every file is named with [date_of] of the argument, whatever
    the folder, the file name pattern or the text of the pages, and a
    period is never absent.  [2025-09 BP.pdf] gives [2025-09];
    [BP_2025-09.pdf] gives [BP_2025-09.pdf]. *)
Theorem C4_period_from_path_argument_only (arg1 : string) (w : World) :
  Forall (named_by arg1) (written (final arg1 w))
  ∧ date_of "2025-09 BP.pdf" = "2025-09"
  ∧ date_of "input/2025-09 BP.pdf" = "input/2025-09"
  ∧ date_of "BP_2025-09.pdf" = "BP_2025-09.pdf".
Proof. split; [apply written_named | done]. Qed.

(** C4 fails as stated: no pattern is looked for in the file name. *)
Lemma C4_counterexample :
  date_of "BP_2025-09.pdf" ≠ "2025-09"
  ∧ written (final "BP_2025-09.pdf" w_two_employees)
    = [("output/BP_2025-09.pdf Bernier Antoine.pdf", [1; 2]);
       ("output/BP_2025-09.pdf Madura Quentin.pdf", [3; 4])].
Proof. split; [discriminate | reflexivity]. Qed.

(** C5, as the script has it: the employees are the seven names written
    in the script.  Nothing is fetched, so no fetch can fail: what a
    remote list would give changes nothing to a run, and every file
    written is the file of one of the seven employees of the script,
    made of the pages that match the last name the script has for that
    employee. *)
Theorem C5_directory_is_built_in
    (arg1 : string) (w : World) (remote : option (list (string * string))) :
  run_script arg1 (mkWorld (input_doc w) remote (dirs0 w) (files0 w))
  = run_script arg1 w
  ∧ Forall (λ e, ∃ i, i < length names
                      ∧ e.1 = employee_file arg1 i
                      ∧ e.2 = employee_pages (default [] (input_doc w)) i)
      (written (final arg1 w))
  ∧ zip names full_names
    = [("Bernier", "Bernier Antoine"); ("Feltin", "Feltin Clément");
       ("Madura", "Madura Quentin"); ("Andres", "Andres Alice");
       ("Legeron", "Legeron Camille"); ("Bellec", "Bellec Maxime");
       ("Auge", "Auge Marc-Antoine")].
Proof.
  split_and!; [done | | done].
  apply Forall_forall. intros [out ps]. rewrite final_written.
  intros (_ & doc & i & -> & Hi & -> & -> & _)%outputs_elem.
  by exists i.
Qed.

(** C5 fails as stated: with a remote list that cannot be fetched the
    run ends well and writes its files. *)
Lemma C5_counterexample :
  remote_employees w_two_employees = None
  ∧ exit_status "2023-07 BP.pdf" w_two_employees = 0
  ∧ written (final "2023-07 BP.pdf" w_two_employees)
    = [("output/2023-07 Bernier Antoine.pdf", [1; 2]);
       ("output/2023-07 Madura Quentin.pdf", [3; 4])].
Proof. split_and!; reflexivity. Qed.

(** C6: when no name is found on any page of the document, the run
    writes no file and ends with status 0.  The document is readable and
    has a page; the only change to the files is that the scratch file is
    gone. *)
Theorem C6_nobody_matched (arg1 : string) (w : World) (doc : pdf) :
  arg1 ≠ "" → input_doc w = Some doc → doc ≠ [] →
  (∀ i, i < length names → employee_pages doc i = []) →
  written (final arg1 w) = []
  ∧ exit_status arg1 w = 0
  ∧ files (final arg1 w) = delete temp_file (files0 w)
  ∧ dirs (final arg1 w) = dirs0 w.
Proof.
  intros Harg Hdoc Hne Hnone.
  assert (Hout : outputs arg1 w = []).
  { apply elem_of_nil_inv. intros [out ps].
    intros (_ & doc' & i & Hdoc' & Hi & _ & -> & Hps & _)%outputs_elem.
    apply Hps. replace doc' with doc by congruence. by apply Hnone. }
  split_and!.
  - by rewrite final_written.
  - by apply (exit_status_readable _ _ doc).
  - apply map_eq. intros f. destruct (decide (f = temp_file)) as [-> | Hf].
    + by rewrite lookup_delete_eq, final_temp.
    + rewrite lookup_delete_ne by done. by rewrite final_files, Hout.
  - apply final_dirs.
Qed.

Lemma C6_witness :
  written (final "2025-09 BP.pdf" w_nobody) = []
  ∧ exit_status "2025-09 BP.pdf" w_nobody = 0
  ∧ files (final "2025-09 BP.pdf" w_nobody) = delete temp_file (files0 w_nobody)
  ∧ dirs (final "2025-09 BP.pdf" w_nobody) = dirs0 w_nobody.
Proof.
  apply (C6_nobody_matched "2025-09 BP.pdf" w_nobody ["Bulletin de paie DUPONT Jeanne"]).
  - discriminate.
  - reflexivity.
  - discriminate.
  - intros i Hi. simpl in Hi.
    do 7 (destruct i as [|i]; [reflexivity|]). lia.
Defined.

(** C7: the scratch file is gone after every run that gets past the
    check of its argument, also when [pdftk] fails on the input; a run
    that stops at the check creates none. *)
Theorem C7_no_scratch_file_left (arg1 : string) (w : World) :
  arg1 ≠ "" ∨ files0 w !! temp_file = None →
  files (final arg1 w) !! temp_file = None.
Proof.
  intros [Harg | Hnone]; [by apply final_temp|].
  destruct (decide (arg1 = "")) as [-> | Harg]; [done | by apply final_temp].
Qed.

Lemma C7_witness :
  files (final "2025-09 BP.pdf" w_unreadable) !! temp_file = None.
Proof.
  apply C7_no_scratch_file_left. left. discriminate.
Defined.

(** C8, as the script has it: no directory is created.  The directories
    after a run are those before it, and a file is written only in a
    directory that was there. *)
Theorem C8_no_directory_created (arg1 : string) (w : World) :
  dirs (final arg1 w) = dirs0 w
  ∧ Forall (λ e, dirname e.1 ∈ dirs0 w) (written (final arg1 w)).
Proof.
  split; [apply final_dirs|].
  apply Forall_forall. intros [out ps]. rewrite final_written.
  intros (_ & doc & i & _ & _ & -> & _ & _ & Hdir)%outputs_elem.
  apply bool_decide_eq_true in Hdir as [Hdot | Hin]; [|done].
  by apply dirname_output_name in Hdot.
Qed.

(** C8 fails as stated: without an [output] directory a matched employee
    gets no file, and the directory is still not there after the run. *)
Lemma C8_counterexample :
  employee_pages ["Bulletin de paie BERNIER Antoine"] 0 = [1]
  ∧ written (final "2025-09 BP.pdf" w_no_output_dir) = []
  ∧ files (final "2025-09 BP.pdf" w_no_output_dir) = ∅
  ∧ "output" ∉ dirs (final "2025-09 BP.pdf" w_no_output_dir).
Proof.
  split_and!; [reflexivity | reflexivity | by vm_compute |].
  rewrite final_dirs. apply not_elem_of_empty.
Qed.

(** C9, as the script has it: the period is the first field of the path
    argument, taken as it is.  For a path of one line it has the form of
    a year, or a year and a month, exactly when the path is such a
    period, alone or followed by a space. *)
Theorem C9_period_pattern_only_if_path_has_it (arg1 : string) (w : World) :
  no_LF arg1 = true →
  Forall (named_by arg1) (written (final arg1 w))
  ∧ (is_period (date_of arg1) = true
     ↔ ∃ y, is_period y = true
            ∧ (arg1 = y ∨ ∃ rest, arg1 = y +:+ String SP rest)).
Proof.
  intros Hline. split; [apply written_named|].
  rewrite (date_of_line _ Hline). split.
  - intros Hp. exists (cut_f1 arg1). split; [done|].
    destruct (cut_f1_split arg1) as (rest & Hsplit & [-> | [r ->]]).
    + left. by rewrite append_nil_r in Hsplit.
    + right. by exists r.
  - intros (y & Hy & Harg).
    destruct (is_period_plain y Hy) as [Hsp _].
    destruct Harg as [-> | [rest ->]].
    + by rewrite cut_f1_no_SP.
    + by rewrite cut_f1_field.
Qed.

Lemma C9_witness :
  Forall (named_by "2025-09 BP.pdf") (written (final "2025-09 BP.pdf" w_two_employees))
  ∧ (is_period (date_of "2025-09 BP.pdf") = true
     ↔ ∃ y, is_period y = true
            ∧ ("2025-09 BP.pdf" = y ∨ ∃ rest, "2025-09 BP.pdf" = y +:+ String SP rest)).
Proof.
  apply C9_period_pattern_only_if_path_has_it. reflexivity.
Defined.

(** C9 fails as stated: the files of a run on [BP.pdf] start with
    [BP.pdf], which is no period. *)
Lemma C9_counterexample :
  written (final "BP.pdf" w_two_employees)
  = [("output/BP.pdf Bernier Antoine.pdf", [1; 2]);
     ("output/BP.pdf Madura Quentin.pdf", [3; 4])]
  ∧ is_period (date_of "BP.pdf") = false.
Proof. split; reflexivity. Qed.

(** C10, for a path of one line: the period at the start of every file
    name is the path up to its first space, not included, and the whole
    path, directories included, when the path has no space; nothing is
    checked. *)
Theorem C10_period_is_first_field (arg1 : string) (w : World) :
  no_LF arg1 = true →
  Forall (named_by arg1) (written (final arg1 w))
  ∧ (∃ rest, arg1 = date_of arg1 +:+ rest ∧ (rest = "" ∨ ∃ r, rest = String SP r))
  ∧ no_SP (date_of arg1) = true
  ∧ (no_SP arg1 = true → date_of arg1 = arg1).
Proof.
  intros Hline. rewrite (date_of_line _ Hline). split_and!.
  - apply written_named.
  - apply cut_f1_split.
  - apply no_SP_cut_f1.
  - apply cut_f1_no_SP.
Qed.

Lemma C10_witness :
  Forall (named_by "input/VisualiserBPMonth.pdf")
    (written (final "input/VisualiserBPMonth.pdf" w_two_employees))
  ∧ (∃ rest, "input/VisualiserBPMonth.pdf"
             = date_of "input/VisualiserBPMonth.pdf" +:+ rest
             ∧ (rest = "" ∨ ∃ r, rest = String SP r))
  ∧ no_SP (date_of "input/VisualiserBPMonth.pdf") = true
  ∧ (no_SP "input/VisualiserBPMonth.pdf" = true
     → date_of "input/VisualiserBPMonth.pdf" = "input/VisualiserBPMonth.pdf").
Proof.
  apply C10_period_is_first_field. reflexivity.
Defined.

(** C10 fails as stated on a path of two lines: [cut] takes the first
    field of each line, so the period goes on after the first space. *)
Lemma C10_counterexample :
  cut_f1 ("2025-09 BP" +:+ String LF "x.pdf") = "2025-09"
  ∧ date_of ("2025-09 BP" +:+ String LF "x.pdf") = "2025-09" +:+ String LF "x.pdf"
  ∧ date_of ("2025-09 BP" +:+ String LF "x.pdf") ≠ "2025-09".
Proof. split_and!; [reflexivity | reflexivity | discriminate]. Qed.

(** * More on the script *)

Lemma replay_other (doc : pdf) (tr : list (string * list nat))
    (m : gmap string pdf) (f : string) :
  (∀ ps, (f, ps) ∉ tr) → replay doc tr m !! f = m !! f.
Proof.
  revert m. induction tr as [|[out ps] tr IH]; intros m Hf; [done|].
  simpl. rewrite IH.
  - apply lookup_insert_ne. intros ->. apply (Hf ps), elem_of_cons. by left.
  - intros ps' H. apply (Hf ps'), elem_of_cons. by right.
Qed.


Lemma outputs_names_NoDup (arg1 : string) (w : World) :
  NoDup (outputs arg1 w).*1.
Proof.
  unfold outputs. destruct (String.eqb arg1 ""); [constructor|].
  destruct (input_doc w) as [doc|]; [|constructor].
  assert (H : ∀ l, NoDup l → Forall (λ i, i < length names) l →
              NoDup (l ≫= output_of doc (dirs0 w) (date_of arg1)).*1).
  { induction l as [|i l IH]; intros Hnd Hl; [constructor|].
    apply NoDup_cons in Hnd as [Hi Hnd]. apply Forall_cons in Hl as [Hlt Hl].
    rewrite bind_cons, fmap_app. apply NoDup_app. split_and!.
    - destruct (output_of_cases doc (date_of arg1) (dirs0 w) i) as [-> | ->];
        [constructor | apply NoDup_singleton].
    - intros out Hout1 ((out' & ps) & -> & Hout2)%list_elem_of_fmap.
      apply list_elem_of_bind in Hout2 as (j & Hj & Hjl).
      destruct (output_of_cases doc (date_of arg1) (dirs0 w) i) as [E | E];
        rewrite E in Hout1; [by apply elem_of_nil in Hout1|].
      apply list_elem_of_singleton in Hout1. simpl in Hout1.
      destruct (output_of_cases doc (date_of arg1) (dirs0 w) j) as [E' | E'];
        rewrite E' in Hj; [by apply elem_of_nil in Hj|].
      apply list_elem_of_singleton in Hj. injection Hj as Hj _.
      rewrite Hj in Hout1. rewrite Forall_forall in Hl.
      apply output_name_inj, full_name_inj in Hout1; [by subst | by auto..].
    - by apply IH. }
  apply H; [apply NoDup_seq|].
  apply Forall_forall. intros i Hi%elem_of_seq. lia.
Qed.

Lemma NoDup_fst_same {A B : Type} (l : list (A * B)) (x : A) (y1 y2 : B) :
  NoDup l.*1 → (x, y1) ∈ l → (x, y2) ∈ l → y1 = y2.
Proof.
  induction l as [|[a b] l IH]; [by intros _ ?%elem_of_nil|].
  simpl. intros [Ha Hl]%NoDup_cons [H1 | H1]%elem_of_cons [H2 | H2]%elem_of_cons.
  - congruence.
  - injection H1 as -> ->. destruct Ha. apply list_elem_of_fmap. by exists (a, y2).
  - injection H2 as -> ->. destruct Ha. apply list_elem_of_fmap. by exists (a, y1).
  - by apply IH.
Qed.

Lemma employees_effect_no_page (date : string) (l : list nat) (st : State) :
  employees_effect [] date l st = st.
Proof. unfold employees_effect. by induction l. Qed.

(** X1: the exit status of the script is that of its last [rm]: it is 0
    exactly when an argument was given and the scratch file was there at
    the end, which it is when the input is a document with a page or
    when a scratch file was left from before; it is 1 otherwise.  The
    status says nothing on what was found or written. *)
Theorem exit_status_is_that_of_rm (arg1 : string) (w : World) :
  (exit_status arg1 w = 0
   ↔ arg1 ≠ "" ∧ (is_Some (files0 w !! temp_file)
                  ∨ ∃ doc, input_doc w = Some doc ∧ doc ≠ []))
  ∧ (exit_status arg1 w = 0 ∨ exit_status arg1 w = 1).
Proof.
  destruct (decide (arg1 = "")) as [-> | Harg].
  { split; [|by right]. split; [done | by intros [? _]]. }
  unfold exit_status. rewrite (run_script_arg _ _ Harg).
  assert (Hrm : ∀ st, ((rm temp_file st).1 = 0 ↔ is_Some (files st !! temp_file))
                      ∧ ((rm temp_file st).1 = 0 ∨ (rm temp_file st).1 = 1)).
  { intros st. unfold rm. destruct (files st !! temp_file); simpl.
    - split; [split; eauto | by left].
    - split; [split; [done | by intros [? ?]] | by right]. }
  destruct (Hrm (before_rm arg1 w)) as [Hiff Hor]. split; [|done].
  rewrite Hiff. unfold before_rm.
  destruct (input_doc w) as [[|page doc]|].
  - rewrite employees_effect_no_page. simpl. split.
    + intros H. split; [done | by left].
    + intros [_ [H | (doc & [= <-] & H)]]; done.
  - split; [|intros _; by apply temp_employees_effect].
    intros _. split; [done|]. right. by eexists.
  - simpl. split.
    + intros H. split; [done | by left].
    + intros [_ [H | (doc & [=] & _)]]; done.
Qed.

(** X2: on an input that [pdftk] cannot read, a run writes no
    per-employee file and creates no directory; all it does to the
    files is to remove a scratch file left from before. *)
Theorem unreadable_input_writes_nothing (arg1 : string) (w : World) :
  arg1 ≠ "" → input_doc w = None →
  written (final arg1 w) = []
  ∧ files (final arg1 w) = delete temp_file (files0 w)
  ∧ dirs (final arg1 w) = dirs0 w.
Proof.
  intros Harg Hdoc. unfold final. rewrite (run_script_arg _ _ Harg).
  unfold before_rm. rewrite Hdoc. simpl.
  by rewrite rm_written, rm_files, rm_dirs.
Qed.

Lemma unreadable_input_witness :
  written (final "2025-09 BP.pdf" w_unreadable) = []
  ∧ files (final "2025-09 BP.pdf" w_unreadable) = delete temp_file (files0 w_unreadable)
  ∧ dirs (final "2025-09 BP.pdf" w_unreadable) = dirs0 w_unreadable.
Proof.
  apply unreadable_input_writes_nothing; [discriminate | reflexivity].
Defined.

(** X3: no two files written in a run have the same name, and every
    file of the trace is there when the run is over, holding the pages
    the trace says, as many as were asked for. *)
Theorem written_files_are_in_place (arg1 : string) (w : World) :
  NoDup (written (final arg1 w)).*1
  ∧ Forall (λ e, ∃ content,
               files (final arg1 w) !! e.1 = Some content
               ∧ content = page_text (default [] (input_doc w)) <$> e.2
               ∧ length content = length e.2)
      (written (final arg1 w)).
Proof.
  rewrite final_written. split; [apply outputs_names_NoDup|].
  apply Forall_forall. intros [out ps] Hin. eexists. split_and!; [|done|].
  - assert (Hn : named_by arg1 (out, ps)).
    { pose proof (written_named arg1 w) as H. rewrite final_written in H.
      revert Hin. by apply Forall_forall. }
    destruct Hn as (full_name & _ & Hout). simpl in Hout.
    rewrite final_files by (rewrite Hout; apply output_name_not_temp).
    apply replay_lookup; [done|]. intros ps' Hin'.
    by apply (NoDup_fst_same _ out ps' ps (outputs_names_NoDup arg1 w)).
  - by rewrite length_fmap.
Qed.

(** X4: a run leaves every file alone that is neither the scratch file
    nor a file of its trace: other files, and the per-employee files of
    earlier runs, are as they were. *)
Theorem other_files_untouched (arg1 : string) (w : World) (f : string) :
  f ≠ temp_file → (∀ ps, (f, ps) ∉ written (final arg1 w)) →
  files (final arg1 w) !! f = files0 w !! f.
Proof.
  intros Hf Hout. rewrite final_files by done.
  apply replay_other. by rewrite <- final_written.
Qed.

Lemma other_files_untouched_witness :
  files (final "2025-09 BP.pdf" w_stale_output) !! "notes.pdf" = Some ["Notes"].
Proof.
  rewrite (other_files_untouched "2025-09 BP.pdf" w_stale_output "notes.pdf").
  - reflexivity.
  - discriminate.
  - intros ps Hin. vm_compute in Hin.
    apply list_elem_of_singleton in Hin. discriminate.
Defined.

(** X5: an employee whose name is on no page of the document gets no
    file in this run, and a file with that name left by an earlier run
    stays as it was. *)
Theorem unmatched_employee_keeps_old_file
    (arg1 : string) (w : World) (doc : pdf) (i : nat) :
  input_doc w = Some doc → i < length names → employee_pages doc i = [] →
  (∀ ps, (employee_file arg1 i, ps) ∉ written (final arg1 w))
  ∧ files (final arg1 w) !! employee_file arg1 i
    = files0 w !! employee_file arg1 i.
Proof.
  intros Hdoc Hi Hnone.
  assert (Hout : ∀ ps, (employee_file arg1 i, ps) ∉ written (final arg1 w)).
  { intros ps. rewrite final_written.
    intros (_ & doc' & j & Hdoc' & Hj & Hname & -> & Hps & _)%outputs_elem.
    apply output_name_inj, full_name_inj in Hname; [|done..]. subst j.
    apply Hps. replace doc' with doc by congruence. exact Hnone. }
  split; [done|].
  apply other_files_untouched; [apply output_name_not_temp | done].
Qed.

Lemma unmatched_employee_witness :
  (∀ ps, (employee_file "2025-09 BP.pdf" 0, ps)
         ∉ written (final "2025-09 BP.pdf" w_stale_output))
  ∧ files (final "2025-09 BP.pdf" w_stale_output) !! employee_file "2025-09 BP.pdf" 0
    = files0 w_stale_output !! employee_file "2025-09 BP.pdf" 0.
Proof.
  apply (unmatched_employee_keeps_old_file "2025-09 BP.pdf" w_stale_output
           ["Bulletin de paie MADURA Quentin"] 0).
  - reflexivity.
  - simpl. lia.
  - reflexivity.
Defined.




(** X7: what a run writes depends on the document, the directories and
    the argument only: no file lying there before, a scratch file of an
    interrupted run included, changes the trace. *)
Theorem trace_independent_of_old_files
    (arg1 : string) (w : World) (old : gmap string pdf) :
  written (final arg1 (mkWorld (input_doc w) (remote_employees w) (dirs0 w) old))
  = written (final arg1 w).
Proof. by rewrite !final_written. Qed.








Lemma lower_lower (s : string) : lower (lower s) = lower s.
Proof.
  induction s as [|c s IH]; [done|]. simpl. rewrite IH. f_equal.
  by destruct c as [[] [] [] [] [] [] [] []].
Qed.

Lemma lower_append (s t : string) : lower (s +:+ t) = lower s +:+ lower t.
Proof. induction s as [|c s IH]; [done|]. simpl. by rewrite IH. Qed.

Lemma grep_qi_lower (name text : string) :
  grep_qi name text = existsb (occurs_in (lower name)) (lines (lower text)).
Proof. unfold grep_qi. by rewrite existsb_map_lower, lines_lower. Qed.

(** X9: letter case plays no part in the matching, on either side: two
    names made of letters that are the same up to case find the same
    thing in two texts that are the same up to case. *)
Theorem grep_qi_up_to_case (name1 name2 text1 text2 : string) :
  letters_only name1 = true → letters_only name2 = true →
  lower name1 = lower name2 → lower text1 = lower text2 →
  grep_qi name1 text1 = grep_qi name2 text2.
Proof. intros _ _ Hn Ht. by rewrite !grep_qi_lower, Hn, Ht. Qed.

Lemma grep_qi_up_to_case_witness :
  grep_qi "Bernier" "Bulletin de paie BERNIER Antoine"
  = grep_qi "BERNIER" "bulletin de paie bernier antoine".
Proof. apply grep_qi_up_to_case; reflexivity. Defined.

Lemma starts_with_append (p s : string) : starts_with p (p +:+ s) = true.
Proof.
  induction p as [|c p IH]; [done|]. simpl. by rewrite Ascii.eqb_refl, IH.
Qed.

Lemma occurs_in_middle (p a b : string) : occurs_in p (a +:+ p +:+ b) = true.
Proof.
  induction a as [|c a IH].
  - change ("" +:+ p +:+ b) with (p +:+ b).
    destruct (p +:+ b) eqn:E; simpl; rewrite <- E, starts_with_append; done.
  - simpl. rewrite IH. apply orb_true_r.
Qed.

(** X10: the matching is by part of the text, not by word: a name of
    letters is found in every text that holds it, in any letter case
    and whatever comes before and after, be it in the middle of a longer
    word. *)
Theorem name_found_inside_any_text (name found before after : string) :
  name ≠ "" → letters_only name = true → lower found = lower name →
  grep_qi name (before +:+ found +:+ after) = true.
Proof.
  intros Hne Hl Hf. rewrite grep_qi_occurs by done.
  rewrite !lower_append, Hf. apply occurs_in_middle.
Qed.

Lemma name_found_inside_witness : grep_qi "Auge" ("M. " +:+ "AUGE" +:+ "REAU Paul") = true.
Proof.
  apply name_found_inside_any_text; [discriminate | reflexivity | reflexivity].
Defined.

Lemma no_SP_append (s t : string) : no_SP (s +:+ t) = no_SP s && no_SP t.
Proof. induction s as [|c s IH]; [done|]. simpl. by rewrite IH, andb_assoc. Qed.

Lemma no_SP_command_subst (s : string) :
  no_SP s = true → no_SP (command_subst s) = true.
Proof.
  induction s as [|c s IH]; [done|]. simpl.
  intros [Hc Hs]%andb_true_iff. specialize (IH Hs).
  destruct (command_subst s) as [|d r].
  - destruct (is_LF c); [done|]. simpl. by rewrite Hc.
  - simpl in *. by rewrite Hc.
Qed.

Lemma no_SP_cut_lines (ls : list string) : no_SP (unlines (map cut_f1 ls)) = true.
Proof.
  induction ls as [|l ls IH]; [done|]. simpl.
  rewrite no_SP_append, no_SP_cut_f1. simpl. exact IH.
Qed.

(** X11: whatever the argument, the period has no space in it; so the
    first space of the name of a per-employee file is the one the script
    puts between the period and the full name. *)
Theorem period_has_no_space (arg1 : string) :
  no_SP (date_of arg1) = true
  ∧ ∀ full_name, cut_f1 (date_of arg1 +:+ " " +:+ full_name +:+ ".pdf") = date_of arg1.
Proof.
  assert (H : no_SP (date_of arg1) = true).
  { apply no_SP_command_subst, no_SP_cut_lines. }
  split; [done|]. intros full_name. by apply cut_f1_field.
Qed.

(** * The loading store and the keys of api.ts *)

Import LoadingStore Api.

Lemma js_get_set {V : Type} (k k' : string) (v : V) (o : gmap string V) :
  js_get k' (js_set k v o)
  = if decide (k' = k) then (if decide (k = "__proto__") then None else Some v)
    else js_get k' o.
Proof.
  unfold js_get, js_set. repeat case_decide; subst; try done.
  - by rewrite lookup_insert_eq.
  - by rewrite lookup_insert_ne.
Qed.

(** X12: a key is loading after [markLoading] (the name [__proto__]
    apart, which an object does not keep) and is not after [markDone] or
    [markError]; marking a key changes nothing for the other keys. *)
Theorem isLoading_after_mark (st : LoadingStoreState) (key other : string)
    (msg : Message) :
  isLoading (markLoading key msg st) other
  = (if decide (other = key) then bool_decide (key ≠ "__proto__")
     else isLoading st other)
  ∧ isLoading (markDone key st) other
    = (if decide (other = key) then false else isLoading st other)
  ∧ isLoading (markError key st) other
    = (if decide (other = key) then false else isLoading st other).
Proof.
  unfold isLoading, markLoading, markDone, markError. simpl.
  rewrite !js_get_set. split_and!; repeat case_decide; subst; try done.
  all: by rewrite ?bool_decide_eq_true_2, ?bool_decide_eq_false_2 by done.
Qed.

(** X13: after [markLoading] the overlay shows exactly when the message
    counts as true (a text that is not empty, or [true]) and the key is
    neither empty nor [__proto__], whatever the store held before: a
    request marked without a message takes down the overlay of a
    request that is still loading.  After [markDone] or [markError] the
    overlay shows when it did before and the key marked is not the
    visible one. *)
Theorem showLoadingOverlay_after_mark (st : LoadingStoreState) (key : string)
    (msg : Message) :
  showLoadingOverlay (markLoading key msg st)
  = truthy msg && negb (String.eqb key "") && bool_decide (key ≠ "__proto__")
  ∧ showLoadingOverlay (markDone key st)
    = showLoadingOverlay st && bool_decide (visibleKey st ≠ key)
  ∧ showLoadingOverlay (markError key st)
    = showLoadingOverlay st && bool_decide (visibleKey st ≠ key).
Proof.
  unfold showLoadingOverlay. split_and!.
  - destruct (truthy msg) eqn:Hm.
    + replace (visibleKey (markLoading key msg st)) with key
        by (unfold markLoading; simpl; by rewrite Hm).
      rewrite (proj1 (isLoading_after_mark st key key msg)).
      rewrite decide_True by done. done.
    + unfold markLoading. simpl. by rewrite Hm.
  - change (visibleKey (markDone key st)) with (visibleKey st).
    rewrite (proj1 (proj2 (isLoading_after_mark st key (visibleKey st) (Flag false)))).
    case_decide as E.
    + rewrite bool_decide_eq_false_2 by (by intros ?). by rewrite !andb_false_r.
    + rewrite bool_decide_eq_true_2 by done. by rewrite andb_true_r.
  - change (visibleKey (markError key st)) with (visibleKey st).
    rewrite (proj2 (proj2 (isLoading_after_mark st key (visibleKey st) (Flag false)))).
    case_decide as E.
    + rewrite bool_decide_eq_false_2 by (by intros ?). by rewrite !andb_false_r.
    + rewrite bool_decide_eq_true_2 by done. by rewrite andb_true_r.
Qed.

(** X14: when a request of [useApiRequest] is over and no other request
    came in between, its key is not loading any more, the other keys are
    as they were, and the overlay does not show, be it that another
    request had it shown before.  Nothing is marked, and the call
    throws, exactly when no [customKey] is given and [makeLoadingKey]
    throws on the path. *)
Theorem useApiRequest_leaves_nothing_loading (path customKey : string)
    (spinnerMessage : Message) (failed : bool) (st : LoadingStoreState) :
  (useApiRequest_loading path spinnerMessage customKey failed st = None
   ↔ customKey = "" ∧ makeLoadingKey path = None)
  ∧ ∀ st', useApiRequest_loading path spinnerMessage customKey failed st = Some st' →
      ∃ key, request_key path customKey = Some key
             ∧ isLoading st' key = false
             ∧ (∀ other, other ≠ key → isLoading st' other = isLoading st other)
             ∧ showLoadingOverlay st' = false.
Proof.
  unfold useApiRequest_loading, request_key. split.
  - destruct (String.eqb_spec customKey "") as [-> | Hck].
    + destruct (makeLoadingKey path); split; try done. by intros [_ ?].
    + split; [done | by intros [? _]].
  - intros st'.
    destruct (if String.eqb customKey "" then makeLoadingKey path else Some customKey)
      as [key|]; [|done].
    intros [= <-]. exists key. split; [done|].
    destruct (isLoading_after_mark (markLoading key spinnerMessage st) key key (Flag false))
      as (_ & Hd & He).
    rewrite decide_True in Hd, He by done.
    split_and!.
    + by destruct failed.
    + intros other Hne.
      destruct (isLoading_after_mark (markLoading key spinnerMessage st) key other (Flag false))
        as (_ & Hd' & He').
      destruct (isLoading_after_mark st key other spinnerMessage) as (Hl & _).
      rewrite decide_False in Hd', He', Hl by done.
      destruct failed; congruence.
    + destruct (showLoadingOverlay_after_mark (markLoading key spinnerMessage st)
                  key (Flag false)) as (_ & Hd' & He').
      assert (Hv : showLoadingOverlay (markLoading key spinnerMessage st) = true →
                   visibleKey (markLoading key spinnerMessage st) = key).
      { unfold showLoadingOverlay, markLoading. simpl.
        destruct (truthy spinnerMessage); [done|]. by rewrite String.eqb_refl. }
      destruct (showLoadingOverlay (markLoading key spinnerMessage st)) eqn:Hs.
      * specialize (Hv eq_refl).
        rewrite bool_decide_eq_false_2 in Hd', He' by (by intros ?).
        by destruct failed.
      * by destruct failed.
Qed.

Lemma useApiRequest_witness :
  ∃ key, request_key "users/12/posts/" "" = Some key
         ∧ isLoading (markDone "usersPosts" (markLoading "usersPosts" (Text "Chargement") state0)) key = false
         ∧ (∀ other, other ≠ key →
              isLoading (markDone "usersPosts" (markLoading "usersPosts" (Text "Chargement") state0)) other
              = isLoading state0 other)
         ∧ showLoadingOverlay (markDone "usersPosts" (markLoading "usersPosts" (Text "Chargement") state0)) = false.
Proof.
  apply (proj2 (useApiRequest_leaves_nothing_loading "users/12/posts/" ""
                  (Text "Chargement") false state0)).
  reflexivity.
Defined.

(** ** [makeLoadingKey] *)

Lemma has_slash_append (s t : string) :
  has_slash (s +:+ t) = has_slash s || has_slash t.
Proof. induction s as [|c s IH]; [done|]. simpl. by rewrite IH, orb_assoc. Qed.

Lemma split_slash_word (w : string) : has_slash w = false → split_slash w = [w].
Proof.
  induction w as [|c w IH]; [done|]. simpl.
  intros [Hc Hw]%orb_false_iff. by rewrite Hc, IH.
Qed.

Lemma split_slash_first (w r : string) :
  has_slash w = false → split_slash (w +:+ "/" +:+ r) = w :: split_slash r.
Proof.
  induction w as [|c w IH]; [done|]. simpl.
  intros [Hc Hw]%orb_false_iff. by rewrite Hc, IH.
Qed.

Lemma path_of_cons (w w' : string) (ws : list string) :
  path_of (w :: w' :: ws) = w +:+ "/" +:+ path_of (w' :: ws).
Proof. reflexivity. Qed.

(** Splitting the path of pieces gives the pieces back. *)
Lemma split_slash_path_of (ws : list string) :
  ws ≠ [] → Forall (λ w, has_slash w = false) ws → split_slash (path_of ws) = ws.
Proof.
  induction ws as [|w [|w' ws] IH]; [done| |]; intros _ Hws.
  - apply Forall_cons in Hws as [Hw _]. by apply split_slash_word.
  - apply Forall_cons in Hws as [Hw Hws].
    rewrite path_of_cons, split_slash_first by done. f_equal. by apply IH.
Qed.

Lemma ends_with_slash_append (s t : string) :
  t ≠ "" → ends_with_slash (s +:+ t) = ends_with_slash t.
Proof.
  intros Ht. induction s as [|c s IH]; [done|].
  change (String c s +:+ t) with (String c (s +:+ t)).
  destruct (s +:+ t) eqn:E; [|by rewrite <- IH].
  destruct s; [|done]. by destruct t.
Qed.

Lemma drop_last_append (s t : string) :
  t ≠ "" → drop_last (s +:+ t) = s +:+ drop_last t.
Proof.
  intros Ht. induction s as [|c s IH]; [done|].
  change (String c s +:+ t) with (String c (s +:+ t)).
  destruct (s +:+ t) eqn:E.
  - destruct s; [|done]. by destruct t.
  - change (String c s +:+ drop_last t) with (String c (s +:+ drop_last t)).
    by rewrite <- IH.
Qed.

Lemma ends_with_slash_piece (w : string) : has_slash w = false → ends_with_slash w = false.
Proof.
  induction w as [|c w IH]; [done|]. simpl.
  intros [Hc Hw]%orb_false_iff. destruct w; [done | by apply IH].
Qed.

Lemma path_of_not_empty (w : string) (ws : list string) :
  w ≠ "" → path_of (w :: ws) ≠ "".
Proof. destruct ws; [done|]. rewrite path_of_cons. by destruct w. Qed.

Lemma path_of_pieces (w : string) (ws : list string) :
  Forall piece (w :: ws) →
  ends_with_slash (path_of (w :: ws)) = false
  ∧ starts_with_slash (path_of (w :: ws)) = false.
Proof.
  intros Hws. split.
  - revert w Hws. induction ws as [|w' ws IH]; intros w Hws.
    + apply Forall_cons in Hws as [[_ Hw] _]. by apply ends_with_slash_piece.
    + apply Forall_cons in Hws as [_ Hws]. rewrite path_of_cons.
      rewrite ends_with_slash_append by done.
      pose proof Hws as [[Hne _] _]%Forall_cons.
      pose proof (path_of_not_empty w' ws Hne) as Hp.
      change ("/" +:+ path_of (w' :: ws)) with (String "/" (path_of (w' :: ws))).
      simpl. destruct (path_of (w' :: ws)) eqn:E; [done|]. rewrite <- E.
      by apply IH.
  - apply Forall_cons in Hws as [[Hne Hw] _].
    destruct w as [|c w]; [done|]. simpl in Hw.
    apply orb_false_iff in Hw as [Hc _].
    destruct ws; [done|]. by rewrite path_of_cons.
Qed.

(** On the path of pieces [makeLoadingKey] is the key of the pieces. *)
Lemma makeLoadingKey_path_of (ws : list string) :
  ws ≠ [] → Forall piece ws → makeLoadingKey (path_of ws) = key_of_words ws.
Proof.
  intros Hne Hws. destruct ws as [|w ws]; [done|].
  destruct (path_of_pieces w ws Hws) as [He Hs].
  unfold makeLoadingKey. rewrite He, Hs. f_equal.
  apply split_slash_path_of; [done|].
  eapply Forall_impl; [exact Hws|]. by intros ? [_ ?].
Qed.

Lemma digits_no_slash (w : string) : digits_only w = true → has_slash w = false.
Proof.
  induction w as [|c w IH]; [done|]. simpl.
  intros [Hc Hw]%andb_true_iff. rewrite (IH Hw), orb_false_r.
  by destruct c as [[] [] [] [] [] [] [] []].
Qed.

Lemma number_is_piece (n : string) : is_number n = true → piece n.
Proof.
  unfold is_number. intros [Hne Hd]%andb_true_iff. split.
  - intros ->. done.
  - by apply digits_no_slash.
Qed.

(** X15: a piece of a path that is a number does not count for the key:
    two paths that differ by a number between the slashes, as
    [users/12/posts] and [users/posts], or [users/12] and [users/345],
    have the same key. *)
Theorem makeLoadingKey_skips_numbers (before after : list string) (n : string) :
  Forall piece (before ++ after) → is_number n = true →
  makeLoadingKey (path_of (before ++ n :: after))
  = makeLoadingKey (path_of (before ++ after)).
Proof.
  intros Hws Hn. pose proof (number_is_piece n Hn) as Hp.
  apply Forall_app in Hws as [Hb Ha].
  rewrite makeLoadingKey_path_of;
    [|by destruct before | by apply Forall_app; split; [|constructor]].
  assert (Hk : key_of_words (before ++ n :: after) = key_of_words (before ++ after)).
  { unfold key_of_words. rewrite !filter_app, filter_cons.
    by rewrite decide_False by (by rewrite Hn). }
  rewrite Hk. destruct (before ++ after) as [|w ws] eqn:E.
  - reflexivity.
  - rewrite <- E. symmetry. apply makeLoadingKey_path_of; [by rewrite E|].
    by apply Forall_app.
Qed.

Lemma makeLoadingKey_skips_numbers_witness :
  makeLoadingKey (path_of (["users"] ++ "12" :: ["posts"]))
  = makeLoadingKey (path_of (["users"] ++ ["posts"])).
Proof.
  apply makeLoadingKey_skips_numbers; [|reflexivity].
  repeat constructor; discriminate.
Defined.

Lemma mapM_capitalize (ws : list string) :
  Forall (λ w, w ≠ "") ws → mapM capitalize ws = Some (capitalized <$> ws).
Proof.
  intros H. apply mapM_Some.
  induction H as [|w ws Hw _ IH]; constructor; [|done].
  by destruct w.
Qed.

Lemma key_of_pieces (first : string) (others : list string) :
  Forall (λ w, piece w ∧ is_number w = false) (first :: others) →
  key_of_words (first :: others) = Some (join_words (first :: (capitalized <$> others))).
Proof.
  intros Hws. unfold key_of_words.
  assert (Hf : ∀ ws, Forall (λ w, piece w ∧ is_number w = false) ws →
               filter (λ word, is_number word = false) ws = ws).
  { induction 1 as [|w ws [_ Hw] _ IH]; [done|].
    by rewrite filter_cons, decide_True, IH. }
  rewrite (Hf _ Hws). apply Forall_cons in Hws as [_ Ho].
  rewrite mapM_capitalize; [done|].
  eapply Forall_impl; [exact Ho|]. by intros ? [[? _] _].
Qed.

Lemma drop_last_slash (s : string) : s ≠ "" → drop_last (s +:+ "/") = s.
Proof. intros Hs. rewrite drop_last_append by done. apply append_nil_r. Qed.

(** X16: on a path of pieces of ASCII characters none of which is a
    number, the key is the first piece followed by the other pieces,
    each with its first letter in upper case ([auth/login] gives
    [authLogin]); one slash in front and one slash at the end change
    nothing. *)
Theorem makeLoadingKey_camel_case (first : string) (others : list string) :
  Forall key_word (first :: others) →
  let key := Some (join_words (first :: (capitalized <$> others))) in
  makeLoadingKey (path_of (first :: others)) = key
  ∧ makeLoadingKey ("/" +:+ path_of (first :: others)) = key
  ∧ makeLoadingKey (path_of (first :: others) +:+ "/") = key
  ∧ makeLoadingKey ("/" +:+ path_of (first :: others) +:+ "/") = key.
Proof.
  intros Hkw key.
  assert (Hws : Forall (λ w, piece w ∧ is_number w = false) (first :: others)).
  { eapply Forall_impl; [exact Hkw|]. by intros ? (? & ? & _). }
  assert (Hp : Forall piece (first :: others)).
  { eapply Forall_impl; [exact Hws|]. by intros ? [? _]. }
  assert (H0 : makeLoadingKey (path_of (first :: others)) = key).
  { rewrite makeLoadingKey_path_of by done. by apply key_of_pieces. }
  set (path := path_of (first :: others)) in *.
  assert (Hne : path ≠ "").
  { apply path_of_not_empty. by apply Forall_cons in Hp as [[? _] _]. }
  destruct (path_of_pieces first others Hp) as [He Hs]. fold path in He, Hs.
  assert (H1 : makeLoadingKey ("/" +:+ path) = key).
  { rewrite <- H0. unfold makeLoadingKey.
    rewrite ends_with_slash_append by done. by rewrite He, Hs. }
  assert (He' : ∀ s, ends_with_slash (s +:+ "/") = true).
  { intros s. by rewrite ends_with_slash_append. }
  split_and!; [done | done | |].
  - rewrite <- H0. unfold makeLoadingKey.
    rewrite He', drop_last_slash by done. by rewrite He.
  - rewrite <- H1. unfold makeLoadingKey at 1.
    change ("/" +:+ path +:+ "/") with (String "/" path +:+ "/").
    rewrite He', drop_last_slash by done.
    unfold makeLoadingKey.
    change (String "/" path) with ("/" +:+ path).
    rewrite ends_with_slash_append by done. by rewrite He.
Qed.

Lemma makeLoadingKey_camel_case_witness :
  makeLoadingKey (path_of ["auth"; "login"]) = Some "authLogin"
  ∧ makeLoadingKey ("/" +:+ path_of ["auth"; "login"]) = Some "authLogin"
  ∧ makeLoadingKey (path_of ["auth"; "login"] +:+ "/") = Some "authLogin"
  ∧ makeLoadingKey ("/" +:+ path_of ["auth"; "login"] +:+ "/") = Some "authLogin".
Proof.
  apply (makeLoadingKey_camel_case "auth" ["login"]).
  repeat constructor; discriminate.
Defined.

Lemma split_slash_pieces (s : string) :
  Forall (λ w, has_slash w = false) (split_slash s).
Proof.
  induction s as [|c s IH]; [by repeat constructor|]. simpl.
  destruct (is_slash c) eqn:Hc; [by constructor|].
  destruct (split_slash s) as [|w ws]; [by repeat constructor; simpl; rewrite Hc|].
  apply Forall_cons in IH as [Hw Hws]. constructor; [|done].
  simpl. by rewrite Hc, Hw.
Qed.

Lemma has_slash_join_words (ws : list string) :
  Forall (λ w, has_slash w = false) ws → has_slash (join_words ws) = false.
Proof.
  induction 1 as [|w ws Hw _ IH]; [done|].
  change (join_words (w :: ws)) with (w +:+ join_words ws).
  by rewrite has_slash_append, Hw, IH.
Qed.

Lemma capitalize_no_slash (w w' : string) :
  capitalize w = Some w' → has_slash w = false → has_slash w' = false.
Proof.
  destruct w as [|c w]; [done|]. intros [= <-]. simpl.
  intros [Hc Hw]%orb_false_iff. rewrite Hw, orb_false_r.
  revert Hc. by destruct c as [[] [] [] [] [] [] [] []].
Qed.

(** X17: a key that [makeLoadingKey] gives has no slash in it, whatever
    the path. *)
Theorem makeLoadingKey_has_no_slash (path key : string) :
  makeLoadingKey path = Some key → has_slash key = false.
Proof.
  unfold makeLoadingKey, key_of_words.
  set (p := if starts_with_slash _ then _ else _).
  pose proof (split_slash_pieces p) as Hs.
  assert (Hf : Forall (λ w, has_slash w = false)
                 (filter (λ word, is_number word = false) (split_slash p))).
  { apply Forall_forall. intros w [_ Hw]%list_elem_of_filter.
    revert w Hw. by apply Forall_forall. }
  destruct (filter _ (split_slash p)) as [|first others]; [by intros [= <-]|].
  apply Forall_cons in Hf as [Hfirst Hothers].
  destruct (mapM capitalize others) as [others'|] eqn:Hm; [|done].
  intros [= <-]. apply (has_slash_join_words (first :: others')).
  constructor; [done|].
  apply mapM_Some in Hm. clear -Hm Hothers.
  induction Hm as [|w w' ws ws' Hw _ IH]; [constructor|].
  apply Forall_cons in Hothers as [Hns Hothers].
  constructor; [by eapply capitalize_no_slash | by apply IH].
Qed.

Lemma makeLoadingKey_has_no_slash_witness : has_slash "usersPosts" = false.
Proof.
  apply (makeLoadingKey_has_no_slash "/users/12/posts/"). reflexivity.
Defined.

(** X18: [makeLoadingKey] throws on a path with two slashes in a row
    after a first piece that is no number, be it in the middle
    ([auth//login]) or at the end ([auth//]): the empty piece between
    them has no first letter. *)
Theorem makeLoadingKey_throws_on_empty_piece (first rest : string) :
  piece first → is_number first = false →
  makeLoadingKey (first +:+ "//" +:+ rest) = None.
Proof.
  intros [Hne Hns] Hnum. unfold makeLoadingKey.
  set (path := first +:+ "//" +:+ rest).
  assert (Hstrip : ∃ r, (if ends_with_slash path then drop_last path else path)
                        = first +:+ "/" +:+ r
                        ∧ ∃ ws, split_slash r = "" :: ws).
  { unfold path. change (first +:+ "//" +:+ rest)
      with (first +:+ "/" +:+ String "/" rest).
    destruct (ends_with_slash _) eqn:He.
    - rewrite drop_last_append by done.
      change ("/" +:+ String "/" rest) with (String "/" (String "/" rest)).
      destruct rest as [|c rest].
      + exists "". split; [done | by exists []].
      + exists (String "/" (drop_last (String c rest))). split; [done|].
        by eexists.
    - exists (String "/" rest). split; [done | by eexists]. }
  destruct Hstrip as (r & -> & ws & Hr).
  replace (starts_with_slash (first +:+ "/" +:+ r)) with false.
  2:{ destruct first as [|c first]; [done|]. simpl in *.
      by apply orb_false_iff in Hns as [-> _]. }
  rewrite split_slash_first by done. rewrite Hr.
  unfold key_of_words. rewrite !filter_cons.
  rewrite (decide_True _ _ Hnum), decide_True by done. done.
Qed.

Lemma makeLoadingKey_throws_witness : makeLoadingKey ("auth" +:+ "//" +:+ "login") = None.
Proof.
  apply makeLoadingKey_throws_on_empty_piece; [split; [discriminate | reflexivity] | reflexivity].
Defined.

(** ** [getCsrfCookie] *)

Lemma split_rows_row (w : string) : has_semicolon w = false → split_rows w = [w].
Proof.
  induction w as [|c w IH]; [done|]. cbn [has_semicolon split_rows].
  intros [Hc Hw]%orb_false_iff. rewrite (IH Hw), Hc. simpl. by destruct w.
Qed.

Lemma split_rows_first (w r : string) :
  has_semicolon w = false → split_rows (w +:+ "; " +:+ r) = w :: split_rows r.
Proof.
  induction w as [|c w IH]; [done|]. cbn [has_semicolon].
  intros [Hc Hw]%orb_false_iff.
  change (String c w +:+ "; " +:+ r) with (String c (w +:+ "; " +:+ r)).
  cbn [split_rows]. rewrite (IH Hw), Hc. simpl. by destruct (w +:+ "; " +:+ r).
Qed.

Lemma cookie_of_cons (w w' : string) (ws : list string) :
  cookie_of (w :: w' :: ws) = w +:+ "; " +:+ cookie_of (w' :: ws).
Proof. reflexivity. Qed.

(** Splitting a cookie string gives its rows back. *)
Lemma split_rows_cookie_of (rows : list string) :
  rows ≠ [] → Forall (λ w, has_semicolon w = false) rows →
  split_rows (cookie_of rows) = rows.
Proof.
  induction rows as [|w [|w' ws] IH]; [done| |]; intros _ Hws.
  - apply Forall_cons in Hws as [Hw _]. by apply split_rows_row.
  - apply Forall_cons in Hws as [Hw Hws].
    rewrite cookie_of_cons, split_rows_first by done. f_equal. by apply IH.
Qed.

Lemma find_first {A : Type} (f : A → bool) (before after : list A) (x : A) :
  Forall (λ y, f y = false) before → f x = true →
  List.find f (before ++ x :: after) = Some x.
Proof.
  intros Hb Hx. induction Hb as [|y before Hy _ IH]; simpl.
  - by rewrite Hx.
  - by rewrite Hy.
Qed.

Lemma split_equals_head (s : string) :
  ∃ ws, split_equals s = before_equals s :: ws.
Proof.
  induction s as [|c s [ws IH]]; [by exists []|]. simpl.
  destruct (Ascii.eqb c "="); [by eexists|]. rewrite IH. by eexists.
Qed.

Lemma split_equals_token (value : string) :
  split_equals ("csrftoken=" +:+ value) !! 1 = Some (before_equals value).
Proof.
  destruct (split_equals_head value) as [ws Hv].
  change (split_equals ("csrftoken=" +:+ value))
    with ("csrftoken" :: split_equals value).
  by rewrite Hv.
Qed.

Lemma starts_with_split (p s : string) :
  starts_with p s = true → ∃ r, s = p +:+ r.
Proof.
  revert s. induction p as [|a p IH]; intros s; [by exists s|].
  destruct s as [|b s]; [done|]. simpl.
  intros [->%Ascii.eqb_eq [r ->]%IH]%andb_true_iff. by exists r.
Qed.

(** X19: in a cookie string whose rows have no semicolon in them,
    [getCsrfCookie] gives the value of the first row that starts with
    [csrftoken=], up to the first [=] of the value: what follows an
    equals sign in the token is lost. *)
Theorem getCsrfCookie_finds_token (before after : list string) (value : string) :
  Forall (λ row, has_semicolon row = false
                 ∧ starts_with "csrftoken=" row = false) before →
  has_semicolon value = false →
  Forall (λ row, has_semicolon row = false) after →
  getCsrfCookie (Some (cookie_of (before ++ ("csrftoken=" +:+ value) :: after)))
  = Some (before_equals value).
Proof.
  intros Hb Hv Ha.
  set (row := "csrftoken=" +:+ value).
  assert (Hrows : split_rows (cookie_of (before ++ row :: after))
                  = before ++ row :: after).
  { apply split_rows_cookie_of; [by destruct before|].
    apply Forall_app. split.
    - eapply Forall_impl; [exact Hb|]. by intros ? [? _].
    - constructor; [exact Hv | exact Ha]. }
  unfold getCsrfCookie.
  destruct (cookie_of (before ++ row :: after)) as [|c cookie] eqn:E.
  { exfalso. simpl in Hrows.
    assert (Hin : row ∈ [""]).
    { rewrite Hrows. apply elem_of_app. right. apply elem_of_cons. by left. }
    by apply list_elem_of_singleton in Hin. }
  rewrite Hrows, (find_first _ before after row).
  - apply split_equals_token.
  - eapply Forall_impl; [exact Hb|]. by intros ? [_ ?].
  - reflexivity.
Qed.

Lemma getCsrfCookie_finds_token_witness :
  getCsrfCookie (Some (cookie_of (["sessionid=xyz"] ++ ("csrftoken=" +:+ "ab=cd") :: ["lang=fr"])))
  = Some (before_equals "ab=cd").
Proof.
  apply getCsrfCookie_finds_token; repeat constructor.
Defined.

(** X20: [getCsrfCookie] gives a token exactly when the cookie string is
    there, is not empty and has a row that starts with [csrftoken=]; a
    token it gives has no [=] in it. *)
Theorem getCsrfCookie_some_iff (cookie : option string) :
  (is_Some (getCsrfCookie cookie)
   ↔ ∃ c, cookie = Some c ∧ c ≠ ""
          ∧ ∃ row, row ∈ split_rows c ∧ starts_with "csrftoken=" row = true)
  ∧ ∀ token, getCsrfCookie cookie = Some token → before_equals token = token.
Proof.
  assert (Hidem : ∀ s, before_equals (before_equals s) = before_equals s).
  { induction s as [|c s IH]; [done|]. simpl.
    destruct (Ascii.eqb c "=") eqn:Hc; [done|]. simpl. by rewrite Hc, IH. }
  destruct cookie as [[|ch c]|].
  - change (getCsrfCookie (Some "")) with (@None string).
    split; [|done]. split; [by intros [? ?] | by intros (? & [= <-] & ? & _)].
  - change (getCsrfCookie (Some (String ch c)))
      with (match List.find (starts_with "csrftoken=") (split_rows (String ch c)) with
            | None => None
            | Some csrfRow => split_equals csrfRow !! 1
            end).
    destruct (List.find _ (split_rows (String ch c))) as [row|] eqn:Hfind.
    + apply find_some in Hfind as [Hin Hrow].
      destruct (starts_with_split _ _ Hrow) as [rest ->].
      rewrite split_equals_token. split.
      * split; [|by eauto]. intros _. exists (String ch c). split_and!; [done..|].
        exists ("csrftoken=" +:+ rest). split; [|done]. by apply list_elem_of_In.
      * by intros token [= <-].
    + split; [|done]. split; [by intros [? ?]|].
      intros (c' & [= <-] & _ & row & Hin%list_elem_of_In & Hrow).
      apply (find_none _ _ Hfind) in Hin. congruence.
  - change (getCsrfCookie None) with (@None string).
    split; [|done]. split; [by intros [? ?] | by intros (? & ? & _)].
Qed.
